(** * pynufft, [linalg/nufft_hsa.py]: the device-resident NUFFT pipeline

    A shallow embedding of class [NUFFT_hsa]: the planned instance, its
    device buffers, the pipeline stages ([x2xx], [xx2k], [k2y], [y2k],
    [k2xx], [xx2x], [s2x], [x2s]) and the public entry points with their
    [try]/[except] fallback cascades.

    Device memory is a heap of arrays addressed by handles, so that in-place
    kernels and aliasing between the caller's buffer and the stage's working
    buffers are visible.  Python exceptions are an explicit result. *)

From stdpp Require Import base numbers list strings gmap.

Local Open Scope nat_scope.

(** ** Scalars

    Device arrays hold [numpy.complex64] values.  The development is
    stated over an interface of the operations the kernels perform and
    uses no algebraic law of the arithmetic, so that a statement holds for
    rounded arithmetic as well as for exact arithmetic; the one place where
    a law is needed (the order of the atomic additions) assumes it
    explicitly.  [cre] and
    [cim] give the real and the imaginary part as scalars, which is how the
    float32 accumulators of [y2k] are represented. *)

Class Scalar (C : Type) := {
  czero : C;
  cone : C;
  cI : C;
  cadd : C -> C -> C;
  cmul : C -> C -> C;
  cconj : C -> C;
  cre : C -> C;
  cim : C -> C
}.

(** ** Arrays and the plan structure handed over by the planner *)

Inductive dtype_t := complex64 | float32.

#[global] Instance dtype_eq_dec : EqDecision dtype_t.
Proof. solve_decision. Defined.

Record ndarray (C : Type) := mk_ndarray {
  shape : list nat;
  dtype : dtype_t;
  data : list C
}.
Arguments mk_ndarray {C} _ _ _.
Arguments shape {C} _.
Arguments dtype {C} _.
Arguments data {C} _.

(** [st['pELL']]: the partial-ELL sparse interpolator. *)
Record pELL_t (C : Type) := mk_pELL {
  nRow : nat;
  prodJd : nat;
  sumJd : nat;
  dim : nat;
  Jd : list nat;
  meshindex : list nat;
  kindx : list nat;
  udata : list C
}.
Arguments mk_pELL {C} _ _ _ _ _ _ _ _.
Arguments nRow {C} _.
Arguments prodJd {C} _.
Arguments sumJd {C} _.
Arguments dim {C} _.
Arguments Jd {C} _.
Arguments meshindex {C} _.
Arguments kindx {C} _.
Arguments udata {C} _.

(** [st['tSN']]: the separable scaling tensor. *)
Record tSN_t (C : Type) := mk_tSN {
  Td_elements : list nat;
  invTd_elements : list C;
  Td : list nat;
  Tdims : nat;
  tensor_sn : list C
}.
Arguments mk_tSN {C} _ _ _ _ _.
Arguments Td_elements {C} _.
Arguments invTd_elements {C} _.
Arguments Td {C} _.
Arguments Tdims {C} _.
Arguments tensor_sn {C} _.

(** The dictionary [st] returned by [helper.plan]. *)
Record st_t (C : Type) := mk_st {
  st_Nd : list nat;
  st_Kd : list nat;
  st_Jd : list nat;
  st_M : nat;
  st_pELL : pELL_t C;
  st_tSN : tSN_t C
}.
Arguments mk_st {C} _ _ _ _ _ _.
Arguments st_Nd {C} _.
Arguments st_Kd {C} _.
Arguments st_Jd {C} _.
Arguments st_M {C} _.
Arguments st_pELL {C} _.
Arguments st_tSN {C} _.

(** What the accelerator side contributes and the sources do not contain:
    the Fourier transform of reikna, the way the compiled kernels decode
    the plan tables, the order in which atomic additions land, and what
    newly allocated device memory holds.  They are parameters of the
    development. *)
Class Kernels (C : Type) := {
  (** [self.fft(k, k, inverse)] on an array of the compiled shape over the
      configured axes. *)
  fft_exec : bool -> list nat -> list nat -> list C -> list C;
  (** neighborIndex[m][j]: linear index into the flattened oversampled grid. *)
  neighborIndex : pELL_t C -> nat -> nat -> nat;
  (** weight[m][j]: interpolation coefficient. *)
  weight : pELL_t C -> nat -> nat -> C;
  (** the deapodization factor of voxel [g], rebuilt from the tensor. *)
  tensor_factor : tSN_t C -> nat -> C;
  (** the linear Kd index of the voxel with linear Nd index [g]. *)
  tensor_index : list nat -> list nat -> nat -> nat;
  (** the order in which the [n] work items of a kernel that accumulates
      by atomic addition perform their additions.  The accelerator does not
      specify it, and it need not be the same in two launches: an
      arrangement of 0 .. n-1, where a statement needs that. *)
  atomic_order : nat -> list nat;
  (** what a newly allocated buffer holds at position [i] before anything
      is written to it: [thr.array] does not initialise device memory. *)
  uninit : nat -> C
}.

(** The same accelerator with its atomic additions landing in another
    order. *)
Definition with_order {C} (K : Kernels C) (ord : nat -> list nat) : Kernels C := {|
  fft_exec := @fft_exec C K;
  neighborIndex := @neighborIndex C K;
  weight := @weight C K;
  tensor_factor := @tensor_factor C K;
  tensor_index := @tensor_index C K;
  atomic_order := ord;
  uninit := @uninit C K
|}.

(** [numpy.uint32(n)]; the product of two [numpy.uint32] scalars is again
    one, [uint32 (a * b)]. *)
Definition uint32 (n : nat) : nat := N.to_nat (N.of_nat n mod 2 ^ 32)%N.

(** [numpy.int32(n)]: [n] modulo 2^32, read as a signed 32-bit number. *)
Definition int32 (n : nat) : Z := ((Z.of_nat n + 2 ^ 31) mod 2 ^ 32 - 2 ^ 31)%Z.

(** The work items of an atomic kernel taken from the last to the first. *)
Definition backwards (n : nat) : list nat := reverse (seq 0 n).

(** [numpy.prod]. *)
Definition prod_list (l : list nat) : nat := foldr Nat.mul 1 l.

(** Python exceptions that the modelled code can raise.  [DeviceError op]
    stands for whatever the accelerator API raises when operation [op] is
    handed something that is not a live device array. *)
Inductive exn :=
  | AttributeError (attr : string)
  | NameError (name : string)
  | UnboundLocalError (name : string)
  | ValueError
  | DeviceError (op : string).

#[global] Instance exn_eq_dec : EqDecision exn.
Proof. solve_decision. Defined.

Section NUFFT.
Context {C : Type} {SC : Scalar C} {KC : Kernels C}.

(** A Python value handed to a method: a reikna device array (a handle into
    device memory), a [numpy.ndarray] on the host, or an object of another
    kind, such as a list, a string or a Python number: it has neither
    [shape] nor [astype], and the accelerator API refuses it as a kernel
    argument.  [None] is not among these objects: pyopencl passes it to a
    kernel as a NULL buffer without raising, and a call on [None] is not
    covered by this development. *)
Inductive pyval :=
  | GpuArr (a : nat)
  | HostArr (x : ndarray C)
  | PyObj.

(** The mutable world: device memory, the value stored in
    [self.volume['gpu_coil_profile']], and a count of the calls of
    [self.to_device]. *)
Record world := mk_world {
  heap : list (ndarray C);
  gpu_coil_profile : pyval;
  to_device_calls : nat
}.

Inductive result (A : Type) :=
  | Ok (a : A) (w : world)
  | Raise (e : exn) (w : world).
Arguments Ok {A} _ _.
Arguments Raise {A} _ _.

Definition M (A : Type) : Type := world -> result A.

#[global] Instance M_ret : MRet M := fun A a w => Ok a w.
#[global] Instance M_bind : MBind M := fun A B f m w =>
  match m w with
  | Ok a w' => f a w'
  | Raise e w' => Raise e w'
  end.
#[global] Instance M_fmap : FMap M := fun A B f m w =>
  match m w with
  | Ok a w' => Ok (f a) w'
  | Raise e w' => Raise e w'
  end.

Definition raise {A} (e : exn) : M A := fun w => Raise e w.

(** [try: body except: handler]; the handler receives the exception being
    handled, which is what a bare [raise] inside it re-raises. *)
Definition try_except {A} (body : M A) (handler : exn -> M A) : M A := fun w =>
  match body w with
  | Ok a w' => Ok a w'
  | Raise e w' => handler e w'
  end.

Definition world_of {A} (r : result A) : world :=
  match r with
  | Ok _ w => w
  | Raise _ w => w
  end.

Definition set_heap (h : list (ndarray C)) (w : world) : world :=
  mk_world h (gpu_coil_profile w) (to_device_calls w).

Definition get_coil : M pyval := fun w => Ok (gpu_coil_profile w) w.
Definition set_coil (a : pyval) : M unit := fun w =>
  Ok tt (mk_world (heap w) a (to_device_calls w)).
Definition count_to_device : M unit := fun w =>
  Ok tt (mk_world (heap w) (gpu_coil_profile w) (S (to_device_calls w))).

(** Allocation of a new device buffer: its handle is the next free one. *)
Definition alloc (arr : ndarray C) : M nat := fun w =>
  Ok (length (heap w)) (set_heap (heap w ++ [arr]) w).

(** Overwrite of the buffer behind a handle. *)
Definition store (a : nat) (arr : ndarray C) : M unit := fun w =>
  Ok tt (set_heap (<[a := arr]> (heap w)) w).

Definition with_data (f : list C -> list C) (arr : ndarray C) : ndarray C :=
  mk_ndarray (shape arr) (dtype arr) (f (data arr)).

(** ** The accelerator API ([self.thr], reikna) *)

(** [v.shape]. *)
Definition shape_of (v : pyval) : M (list nat) := fun w =>
  match v with
  | GpuArr a =>
      match heap w !! a with
      | Some arr => Ok (shape arr) w
      | None => Raise (DeviceError "shape") w
      end
  | HostArr x => Ok (shape x) w
  | PyObj => Raise (AttributeError "shape") w
  end.

(** An argument of a device operation has to be a live device array: the
    API raises on a host array and on an object of another kind ([None],
    which it would accept, is no [pyval]). *)
Definition deref (op : string) (v : pyval) : M (nat * ndarray C) := fun w =>
  match v with
  | GpuArr a =>
      match heap w !! a with
      | Some arr => Ok (a, arr) w
      | None => Raise (DeviceError op) w
      end
  | _ => Raise (DeviceError op) w
  end.

(** What an array of [n] elements holds when it has been allocated and not
    written yet. *)
Definition uninitialised (n : nat) : list C := map uninit (seq 0 n).

(** [self.thr.array(shape, dtype)]: the contents of the new buffer are
    whatever the memory holds. *)
Definition thr_array (shp : list nat) (dt : dtype_t) : M pyval :=
  GpuArr <$> alloc (mk_ndarray shp dt (uninitialised (prod_list shp))).

(** [arr.fill(v)], which returns the array itself. *)
Definition fill (v : C) (x : pyval) : M pyval :=
  '(a, arr) ← deref "fill" x;
  store a (with_data (fun d => replicate (length d) v) arr);;
  mret x.

(** [self.thr.copy_array(src, dest=dst)] for arrays of the same element
    type, which is how the stages use it on the documented complex64
    input: [dst], allocated with the shape of [src], receives its
    elements.  reikna copies the bytes of [src]; a source of another
    element size is not modelled. *)
Definition thr_copy_array (src dst : pyval) : M unit :=
  '(_, s) ← deref "copy_array" src;
  '(d, darr) ← deref "copy_array" dst;
  store d (with_data (fun _ => data s) darr).

(** [self.thr.to_device(host)], without [dest]: a new device array holding
    the host data.  [astype(self.dtype)] has been applied by the caller. *)
Definition thr_to_device (v : pyval) : M pyval :=
  match v with
  | HostArr x => GpuArr <$> alloc (mk_ndarray (shape x) complex64 (data x))
  | _ => raise (DeviceError "to_device")
  end.

(** [self.thr.to_device(host, dest=dst)]. *)
Definition thr_to_device_dest (v : pyval) (dst : pyval) : M unit :=
  match v with
  | HostArr x =>
      '(d, darr) ← deref "to_device" dst;
      store d (with_data (fun _ => data x) darr)
  | _ => raise (DeviceError "to_device")
  end.

(** ** The planned instance

    The attributes that [plan] and [offload] store on [self] and that stay
    fixed afterwards.  [Ndprod], [Kdprod] and [M] are [numpy.int32] values
    when [offload] has run, [Jdprod], [batch] and the four scalars of the
    interpolator are [numpy.uint32] values.  The record keeps each as the
    natural number it holds; an [int32] that has wrapped to a negative
    number has no counterpart here ([plan_attributes] gives 0 for it), and
    what is stated about [Ndprod], [Kdprod] and [M] of a plan assumes the
    products below 2^31. *)
Record plan_t := mk_plan {
  ndims : nat;
  ft_axes : list nat;
  parallel_flag : nat;
  batch : nat;
  Nd : list nat;
  Kd : list nat;
  multi_Nd : list nat;
  multi_Kd : list nat;
  multi_M : list nat;
  Kdprod : nat;
  Jdprod : nat;
  Ndprod : nat;
  M_samples : nat;
  pELL : pELL_t C;
  tSN : tSN_t C;
  fft_shape : list nat;
  wavefront : nat
}.

(** The attribute part of [plan(om, Nd, Kd, Jd, ft_axes, batch)]; [st] is
    the result of [helper.plan(om, Nd, Kd, Jd, ...)] and [wf] the warp size
    found by the constructor. *)
Definition plan_attributes (wf : nat) (st : st_t C)
    (ft_axes_arg : option (list nat)) (batch_arg : option nat) : plan_t :=
  let ndims := length (st_Nd st) in
  let ft_axes := match ft_axes_arg with
                 | None => seq 0 ndims
                 | Some ax => ax
                 end in
  let parallel_flag := match batch_arg with None => 0 | Some _ => 1 end in
  let batch := match batch_arg with
               | None => uint32 1
               | Some b => uint32 b
               end in
  let single := bool_decide (batch = 1) && bool_decide (parallel_flag = 0) in
  let p := st_pELL st in
  mk_plan ndims ft_axes parallel_flag batch (st_Nd st) (st_Kd st)
    (if single then st_Nd st else st_Nd st ++ [batch])
    (if single then st_Kd st else st_Kd st ++ [batch])
    (if single then [st_M st] else [st_M st] ++ [batch])
    (Z.to_nat (int32 (prod_list (st_Kd st)))) (uint32 (prod_list (st_Jd st)))
    (Z.to_nat (int32 (prod_list (st_Nd st))))
    (Z.to_nat (int32 (st_M st)))
    (mk_pELL (uint32 (nRow p)) (uint32 (prodJd p)) (uint32 (sumJd p))
       (uint32 (dim p)) (Jd p) (meshindex p) (kindx p) (udata p))
    (st_tSN st)
    (if bool_decide (1 < batch) then st_Kd st ++ [batch] else st_Kd st)
    wf.

(** [offload]: the only buffer it creates that is written again later is
    the coil profile, [self.thr.array(self.multi_Nd, ...).fill(1.0)]. *)
Definition offload (P : plan_t) : M unit :=
  prof ← thr_array (multi_Nd P) complex64 ≫= fill cone;
  set_coil prof.

(** [plan]: attributes, then [offload], on a device whose memory is [h]. *)
Definition plan (wf : nat) (st : st_t C) (ft_axes_arg : option (list nat))
    (batch_arg : option nat) (h : list (ndarray C)) : plan_t * result unit :=
  let P := plan_attributes wf st ft_axes_arg batch_arg in
  (P, offload P (mk_world h PyObj 0)).

(** ** The compiled kernels ([self.prg]) *)

(** A kernel whose work item [i] of [n] rewrites element [i] of its output. *)
Definition elementwise (n : nat) (f : nat -> C -> C) (out : list C) : list C :=
  imap (fun i v => if decide (i < n) then f i v else v) out.

(** Modelled from the spec: kernel [cTensorMultiply] of [re_subroutine],
    which is not among the sources.  It multiplies an Nd(x batch) array
    element-wise, in place, by the scaling tensor, broadcasting across the
    batch dimension (the last, fastest axis). *)
Definition cTensorMultiply (batch : nat) (t : tSN_t C) (global_size : nat)
    (xx : list C) : list C :=
  elementwise global_size (fun i v => cmul v (tensor_factor t (i / batch))) xx.

(** Modelled from the spec: kernel [cTensorCopy] of [re_subroutine].  One
    structured copy for both directions: [1] copies every voxel of the Nd
    array to its place in the Kd array, [-1] copies it back. *)
Definition cTensorCopy (batch : nat) (nd kd : list nat) (src dst : list C)
    (direction : Z) (global_size : nat) : list C :=
  foldl (fun out g =>
    foldl (fun out b =>
      let i_nd := g * batch + b in
      let i_kd := tensor_index nd kd g * batch + b in
      let '(from, to) := if bool_decide (direction = 1%Z)
                         then (i_nd, i_kd) else (i_kd, i_nd) in
      match src !! from with
      | Some v => <[to := v]> out
      | None => out
      end) out (seq 0 batch)) dst (seq 0 global_size).

(** Modelled from the spec: what kernel [pELL_spmv_mCoil] accumulates for
    sample [m] and channel [b], [prodJd] terms added, in order, to a zero
    partial sum.  A read outside the grid, which the plan excludes, gives
    zero. *)
Definition interp_sum (p : pELL_t C) (batch : nat) (vec : list C)
    (m b : nat) : C :=
  foldl (fun acc j =>
           cadd acc (cmul (weight p m j)
                          (default czero (vec !! (neighborIndex p m j * batch + b)))))
        czero (seq 0 (prodJd p)).

(** Modelled from the spec: kernel [pELL_spmv_mCoil] of [re_subroutine].
    One work group per pair (sample, channel) writes
    y[m,b] = sum over j of weight[m,j] * k[neighborIndex[m,j], b]. *)
Definition pELL_spmv_mCoil (batch : nat) (p : pELL_t C) (vec out : list C)
    (rows : nat) : list C :=
  elementwise rows (fun i _ => interp_sum p batch vec (i / batch) (i mod batch)) out.

(** One atomic addition of the pair (ux, uy) to cell [cell] of the two
    accumulators; a cell outside the arrays is not written. *)
Definition atomic_add (cell : nat) (ux uy : C) (acc : list C * list C)
    : list C * list C :=
  match acc.1 !! cell, acc.2 !! cell with
  | Some ox, Some oy => (<[cell := cadd ox ux]> acc.1, <[cell := cadd oy uy]> acc.2)
  | _, _ => acc
  end.

(** Modelled from the spec: one work item of kernel [pELL_spmvh_mCoil] of
    [re_subroutine].  Work item [t] stands for one (sample, neighbor,
    channel) and adds conj(weight[m,j]) * y[m,b] to grid cell
    neighborIndex[m,j] of channel b, real and imaginary parts in separate
    arrays, by atomic addition. *)
Definition scatter_step (batch : nat) (p : pELL_t C) (y : list C)
    (acc : list C * list C) (t : nat) : list C * list C :=
  let b := t mod batch in
  let j := (t / batch) mod prodJd p in
  let m := t / batch / prodJd p in
  match y !! (m * batch + b) with
  | Some v =>
      let u := cmul (cconj (weight p m j)) v in
      atomic_add (neighborIndex p m j * batch + b) (cre u) (cim u) acc
  | None => acc
  end.

(** Modelled from the spec: kernel [pELL_spmvh_mCoil] of [re_subroutine].
    The additions of its [global_size] work items land in the order
    [atomic_order global_size], which the accelerator does not specify. *)
Definition pELL_spmvh_mCoil (batch : nat) (p : pELL_t C) (kx ky y : list C)
    (global_size : nat) : list C * list C :=
  foldl (scatter_step batch p y) (kx, ky) (atomic_order global_size).

(** Modelled from the spec: kernel [cPopulate] of [re_subroutine]: every
    channel of [x] receives the combined image [s]. *)
Definition cPopulate (batch : nat) (s x : list C) (global_size : nat) : list C :=
  elementwise global_size (fun i v => default v (s !! (i / batch))) x.

(** Modelled from the spec: kernel [cMultiplyVecInplace] of [re_subroutine],
    as it is launched here (with 1 for its batch argument):
    outb[i] = outb[i] * a[i]. *)
Definition cMultiplyVecInplace (a outb : list C) (global_size : nat) : list C :=
  elementwise global_size
    (fun i v => match a !! i with Some c => cmul v c | None => v end) outb.

(** Modelled from the spec: kernel [cMultiplyConjVecInplace] of
    [re_subroutine], as it is launched here (with 1 for its batch argument):
    outb[i] = outb[i] * conj(a[i]). *)
Definition cMultiplyConjVecInplace (a outb : list C) (global_size : nat) : list C :=
  elementwise global_size
    (fun i v => match a !! i with Some c => cmul v (cconj c) | None => v end) outb.

(** Modelled from the spec: kernel [cAggregate] of [re_subroutine]:
    s[g] = sum over the channels b of x[g,b]. *)
Definition cAggregate (batch : nat) (x s : list C) (voxels : nat) : list C :=
  elementwise voxels
    (fun g _ => foldl (fun acc b => cadd acc (default czero (x !! (g * batch + b))))
                      czero (seq 0 batch)) s.

(** ** Methods of [NUFFT_hsa]

    The decorator [push_cuda_context] pushes the instance's context and
    swallows any failure of doing so; it has no effect on device memory and
    is not modelled. *)

(** A kernel launch that rewrites the buffer [x] in place. *)
Definition launch_inplace (op : string) (f : list C -> list C) (x : pyval) : M unit :=
  '(a, arr) ← deref op x;
  store a (with_data f arr).

(** [c * x] and [x + y] on device arrays: a new array each. *)
Definition arr_scale (c : C) (x : pyval) : M pyval :=
  '(_, arr) ← deref "mul" x;
  GpuArr <$> alloc (mk_ndarray (shape arr) complex64 (map (cmul c) (data arr))).

Definition arr_add (x y : pyval) : M pyval :=
  '(_, xa) ← deref "add" x;
  '(_, ya) ← deref "add" y;
  GpuArr <$> alloc (mk_ndarray (shape xa) complex64 (zip_with cadd (data xa) (data ya))).

Definition reset_sense : M unit :=
  prof ← get_coil;
  fill cone prof;;
  mret tt.

Definition set_sense (P : plan_t) (coil_profile : pyval) : M unit :=
  shp ← shape_of coil_profile;
  if bool_decide (shp ≠ multi_Nd P) then raise ValueError
  else thr_to_device coil_profile ≫= set_coil.

Definition to_device (image : pyval) : M pyval :=
  count_to_device;;
  shp ← shape_of image;
  g_image ← thr_array shp complex64;
  thr_to_device_dest image g_image;;
  mret g_image.

Definition s2x (P : plan_t) (s : pyval) : M pyval :=
  x ← thr_array (multi_Nd P) complex64;
  '(_, sarr) ← deref "cPopulate" s;
  launch_inplace "cPopulate"
    (fun d => cPopulate (batch P) (data sarr) d (batch P * Ndprod P)) x;;
  prof ← get_coil;
  '(_, parr) ← deref "cMultiplyVecInplace" prof;
  launch_inplace "cMultiplyVecInplace"
    (fun d => cMultiplyVecInplace (data parr) d (batch P * Ndprod P)) x;;
  mret x.

Definition x2xx (P : plan_t) (x : pyval) : M pyval :=
  shp ← shape_of x;
  xx ← thr_array shp complex64;
  thr_copy_array x xx;;
  launch_inplace "cTensorMultiply"
    (cTensorMultiply (batch P) (tSN P) (batch P * Ndprod P)) xx;;
  mret xx.

Definition xx2k (P : plan_t) (xx : pyval) : M pyval :=
  k ← thr_array (multi_Kd P) complex64;
  fill czero k;;
  '(_, src) ← deref "cTensorCopy" xx;
  launch_inplace "cTensorCopy"
    (fun dst => cTensorCopy (batch P) (Nd P) (Kd P) (data src) dst 1 (Ndprod P)) k;;
  launch_inplace "fft" (fft_exec false (fft_shape P) (ft_axes P)) k;;
  mret k.

(** The global size is [nRow * batch * wavefront] with [wavefront] work
    items in a group, that is [nRow * batch] groups, one for each row of
    each channel; [nRow] and [batch] are [numpy.uint32] scalars, whose
    product wraps. *)
Definition k2y (P : plan_t) (k : pyval) : M pyval :=
  y ← thr_array (multi_M P) complex64 ≫= fill czero;
  '(_, vec) ← deref "pELL_spmv_mCoil" k;
  launch_inplace "pELL_spmv_mCoil"
    (fun out => pELL_spmv_mCoil (batch P) (pELL P) (data vec) out
                  (uint32 (nRow (pELL P) * batch P))) y;;
  mret y.

(** The global size [nRow * prodJd * batch] is a product of
    [numpy.uint32] scalars, which wraps. *)
Definition y2k (P : plan_t) (y : pyval) : M pyval :=
  kx ← thr_array (multi_Kd P) float32 ≫= fill czero;
  ky ← thr_array (multi_Kd P) float32 ≫= fill czero;
  '(_, yarr) ← deref "pELL_spmvh_mCoil" y;
  '(kxa, kxarr) ← deref "pELL_spmvh_mCoil" kx;
  '(kya, kyarr) ← deref "pELL_spmvh_mCoil" ky;
  let '(dx, dy) :=
    pELL_spmvh_mCoil (batch P) (pELL P) (data kxarr) (data kyarr) (data yarr)
      (uint32 (nRow (pELL P) * prodJd (pELL P) * batch P)) in
  store kxa (with_data (fun _ => dx) kxarr);;
  store kya (with_data (fun _ => dy) kyarr);;
  iky ← arr_scale cI ky;
  arr_add kx iky.

Definition k2xx (P : plan_t) (k : pyval) : M pyval :=
  launch_inplace "fft" (fft_exec true (fft_shape P) (ft_axes P)) k;;
  xx ← thr_array (multi_Nd P) complex64;
  fill czero xx;;
  '(_, src) ← deref "cTensorCopy" k;
  launch_inplace "cTensorCopy"
    (fun dst => cTensorCopy (batch P) (Nd P) (Kd P) (data src) dst (-1) (Ndprod P)) xx;;
  mret xx.

Definition xx2x (P : plan_t) (xx : pyval) : M pyval :=
  shp ← shape_of xx;
  x ← thr_array shp complex64;
  thr_copy_array xx x;;
  launch_inplace "cTensorMultiply"
    (cTensorMultiply (batch P) (tSN P) (batch P * Ndprod P)) x;;
  mret x.

Definition x2s (P : plan_t) (x : pyval) : M pyval :=
  s ← thr_array (Nd P) complex64;
  prof ← get_coil;
  '(_, parr) ← deref "cMultiplyConjVecInplace" prof;
  launch_inplace "cMultiplyConjVecInplace"
    (fun d => cMultiplyConjVecInplace (data parr) d (batch P * Ndprod P)) x;;
  '(_, xarr) ← deref "cAggregate" x;
  launch_inplace "cAggregate"
    (fun d => cAggregate (batch P) (data xarr) d (Ndprod P)) s;;
  mret s.

(** Evaluation of a name that is bound nowhere, and of a local variable
    that has not been assigned. *)
Definition unbound_name {A} (name : string) : M A := raise (NameError name).
Definition unbound_local {A} (name : string) : M A := raise (UnboundLocalError name).

Definition forward (P : plan_t) (gx : pyval) : M pyval :=
  xx ← try_except (x2xx P gx) (fun _ =>
          try_except (px ← to_device gx; x2xx P px) (fun e =>
            (* [if gxx.shape != ...]: no name [gxx] exists *)
            unbound_name (A := unit) "gxx";;
            raise e));
  k ← xx2k P xx;
  k2y P k.

Definition forward_one2many (P : plan_t) (s : pyval) : M pyval :=
  x ← try_except (s2x P s) (fun _ =>
         try_except (ps ← to_device s; s2x P ps) (fun e =>
           shp ← shape_of s;
           (* the message reads [x.shape], and [x] was never assigned *)
           (if bool_decide (shp ≠ Nd P) then unbound_local "x" else mret tt);;
           raise e));
  forward P x.

Definition adjoint (P : plan_t) (gy : pyval) : M pyval :=
  k ← try_except (y2k P gy) (fun _ =>
         try_except (py ← to_device gy; y2k P py) (fun e => raise e));
  xx ← k2xx P k;
  xx2x P xx.

Definition adjoint_many2one (P : plan_t) (y : pyval) : M pyval :=
  x ← try_except (adjoint P y) (fun _ =>
         try_except (shape_of y;; py ← to_device y; adjoint P py)
           (fun e => raise e));
  x2s P x.

Definition selfadjoint_one2many2one (P : plan_t) (gx : pyval) : M pyval :=
  gy ← forward_one2many P gx;
  adjoint_many2one P gy.

Definition selfadjoint (P : plan_t) (gx : pyval) : M pyval :=
  gy ← forward P gx;
  adjoint P gy.

(** ** The fallback cascade of the public entry points

    Each of the four entry points has the form
    [try: fast except: (try: fallback except: ...; raise)] followed by the
    rest of the pipeline. *)
Inductive entry := Forward | Adjoint | Forward_one2many | Adjoint_many2one.

Definition run_entry (P : plan_t) (e : entry) : pyval -> M pyval :=
  match e with
  | Forward => forward P
  | Adjoint => adjoint P
  | Forward_one2many => forward_one2many P
  | Adjoint_many2one => adjoint_many2one P
  end.

(** The body of the outer [try]. *)
Definition fast_path (P : plan_t) (e : entry) (x : pyval) : M pyval :=
  match e with
  | Forward => x2xx P x
  | Adjoint => y2k P x
  | Forward_one2many => s2x P x
  | Adjoint_many2one => adjoint P x
  end.

(** The body of the inner [try]. *)
Definition fallback_path (P : plan_t) (e : entry) (x : pyval) : M pyval :=
  match e with
  | Forward => px ← to_device x; x2xx P px
  | Adjoint => py ← to_device x; y2k P py
  | Forward_one2many => ps ← to_device x; s2x P ps
  | Adjoint_many2one => shape_of x;; py ← to_device x; adjoint P py
  end.

(** What follows the [try] statement. *)
Definition continuation (P : plan_t) (e : entry) (r : pyval) : M pyval :=
  match e with
  | Forward => k ← xx2k P r; k2y P k
  | Adjoint => xx ← k2xx P r; xx2x P xx
  | Forward_one2many => forward P r
  | Adjoint_many2one => x2s P r
  end.

(** The propagation policy as the specification words it: when the fast
    path and then the fallback fail, the caller sees the failure of the
    fast path. *)
Definition surfaces_original_failure (P : plan_t) (e : entry) (x : pyval)
    (w : world) : Prop :=
  forall e1 w1 e2 w2,
    fast_path P e x w = Raise e1 w1 ->
    fallback_path P e x w1 = Raise e2 w2 ->
    exists w', run_entry P e x w = Raise e1 w'.

(** [m] calls [self.to_device] exactly [n] times, whatever its outcome. *)
Definition adds_calls {A} (n : nat) (m : M A) : Prop :=
  forall w, to_device_calls (world_of (m w)) = n + to_device_calls w.

(** ** The stored coil sensitivity *)

(** The array behind [self.volume['gpu_coil_profile']]. *)
Definition coil_buffer (w : world) : option (ndarray C) :=
  match gpu_coil_profile w with
  | GpuArr c => heap w !! c
  | _ => None
  end.

(** The uniform profile: all ones, of shape [multi_Nd]. *)
Definition uniform_profile (P : plan_t) : ndarray C :=
  mk_ndarray (multi_Nd P) complex64 (replicate (prod_list (multi_Nd P)) cone).

(** The stored profile is a complex array of the planned shape and size. *)
Definition sense_ok (P : plan_t) (w : world) : Prop :=
  exists arr, coil_buffer w = Some arr /\
    shape arr = multi_Nd P /\ dtype arr = complex64 /\
    length (data arr) = prod_list (multi_Nd P).

(** ** Contents of the buffer each stage returns, given the contents of
    its argument *)

Definition x2xx_data (P : plan_t) (d : list C) : list C :=
  cTensorMultiply (batch P) (tSN P) (batch P * Ndprod P) d.

Definition xx2k_data (P : plan_t) (d : list C) : list C :=
  fft_exec false (fft_shape P) (ft_axes P)
    (cTensorCopy (batch P) (Nd P) (Kd P) d
       (replicate (prod_list (multi_Kd P)) czero) 1 (Ndprod P)).

Definition k2y_data (P : plan_t) (d : list C) : list C :=
  pELL_spmv_mCoil (batch P) (pELL P) d
    (replicate (prod_list (multi_M P)) czero) (uint32 (nRow (pELL P) * batch P)).

(** The two float32 accumulators of [y2k]. *)
Definition y2k_accum (P : plan_t) (d : list C) : list C * list C :=
  let zeros := replicate (prod_list (multi_Kd P)) czero in
  pELL_spmvh_mCoil (batch P) (pELL P) zeros zeros d
    (uint32 (nRow (pELL P) * prodJd (pELL P) * batch P)).

Definition y2k_data (P : plan_t) (d : list C) : list C :=
  zip_with cadd (y2k_accum P d).1 (map (cmul cI) (y2k_accum P d).2).

Definition k2xx_data (P : plan_t) (d : list C) : list C :=
  cTensorCopy (batch P) (Nd P) (Kd P)
    (fft_exec true (fft_shape P) (ft_axes P) d)
    (replicate (prod_list (multi_Nd P)) czero) (-1) (Ndprod P).

Definition xx2x_data (P : plan_t) (d : list C) : list C :=
  cTensorMultiply (batch P) (tSN P) (batch P * Ndprod P) d.

(** The buffers [forward] leaves behind: the scaled copy, the grid and the
    samples. *)
Definition forward_buffers (P : plan_t) (arr : ndarray C) : list (ndarray C) :=
  [mk_ndarray (shape arr) complex64 (x2xx_data P (data arr));
   mk_ndarray (multi_Kd P) complex64 (xx2k_data P (x2xx_data P (data arr)));
   mk_ndarray (multi_M P) complex64
     (k2y_data P (xx2k_data P (x2xx_data P (data arr))))].

(** The buffers [adjoint] leaves behind: the two accumulators, [1j*ky],
    the grid (transformed in place by [k2xx]), the cropped image and its
    scaled copy. *)
Definition adjoint_buffers (P : plan_t) (arr : ndarray C) : list (ndarray C) :=
  [mk_ndarray (multi_Kd P) float32 (y2k_accum P (data arr)).1;
   mk_ndarray (multi_Kd P) float32 (y2k_accum P (data arr)).2;
   mk_ndarray (multi_Kd P) complex64 (map (cmul cI) (y2k_accum P (data arr)).2);
   mk_ndarray (multi_Kd P) complex64
     (fft_exec true (fft_shape P) (ft_axes P) (y2k_data P (data arr)));
   mk_ndarray (multi_Nd P) complex64 (k2xx_data P (y2k_data P (data arr)));
   mk_ndarray (multi_Nd P) complex64
     (xx2x_data P (k2xx_data P (y2k_data P (data arr))))].

End NUFFT.

Arguments pyval : clear implicits.
Arguments world : clear implicits.
Arguments plan_t : clear implicits.
Arguments result : clear implicits.
Arguments M : clear implicits.
Arguments Ok {C A} _ _.
Arguments Raise {C A} _ _.
Arguments PyObj {C}.
Arguments world_of {C A} _.

(** ** A small exact instance, for closed examples

    Gaussian integers as scalars; the plan tables are read row by row, the
    voxel mapping and the transform are the identity, the atomic additions
    land in index order and new memory holds zeros. *)
Module Exact.

Definition GZ : Type := Z * Z.

#[global] Instance GZ_scalar : Scalar GZ := {|
  czero := (0, 0)%Z;
  cone := (1, 0)%Z;
  cI := (0, 1)%Z;
  cadd := fun x y => (x.1 + y.1, x.2 + y.2)%Z;
  cmul := fun x y => (x.1 * y.1 - x.2 * y.2, x.1 * y.2 + x.2 * y.1)%Z;
  cconj := fun x => (x.1, - x.2)%Z;
  cre := fun x => (x.1, 0)%Z;
  cim := fun x => (x.2, 0)%Z
|}.

#[global] Instance GZ_kernels : Kernels GZ := {|
  fft_exec := fun _ _ _ d => d;
  neighborIndex := fun p m j => default 0 (kindx p !! (m * prodJd p + j));
  weight := fun p m j => default czero (udata p !! (m * prodJd p + j));
  tensor_factor := fun t g => default cone (tensor_sn t !! g);
  tensor_index := fun _ _ g => g;
  atomic_order := fun n => seq 0 n;
  uninit := fun _ => (0, 0)%Z
|}.

Definition re (z : Z) : GZ := (z, 0%Z).

(** Nd = (2,), Kd = (4,), Jd = (2,), M = 2. *)
Definition st0 : st_t GZ :=
  mk_st [2] [4] [2] 2
    (mk_pELL 2 2 2 1 [2] [0; 1] [0; 1; 2; 3] [re 1; re 2; re 3; re 4])
    (mk_tSN [1] [re 1] [2] 1 [re 2; re 3]).

(** The plan made without [batch], and the one made with [batch = 2]. *)
Definition P0 : plan_t GZ := plan_attributes 4 st0 None None.
Definition Pb : plan_t GZ := plan_attributes 4 st0 None (Some 2).

(** An image of shape Nd, a grid of shape Kd, a profile of shape Nd + (1,)
    and one of shape Nd. *)
Definition img0 : ndarray GZ := mk_ndarray [2] complex64 [(1, 2)%Z; (3, 4)%Z].
Definition grid0 : ndarray GZ :=
  mk_ndarray [4] complex64 [(2, 4)%Z; (9, 12)%Z; (0, 0)%Z; (0, 0)%Z].
Definition prof_Nd_1 : ndarray GZ := mk_ndarray [2; 1] complex64 [(0, 1)%Z; (0, 1)%Z].
Definition prof_Nd : ndarray GZ := mk_ndarray [2] complex64 [(0, 1)%Z; (0, 1)%Z].

(** The device after [plan], when it held [img0] and [grid0] before:
    handle 0 is the image, handle 1 the grid, handle 2 the coil profile. *)
Definition w0 : world GZ := world_of (plan 4 st0 None None [img0; grid0]).2.

(** The same device after [set_sense(prof_Nd)]. *)
Definition w1 : world GZ := world_of (set_sense P0 (HostArr prof_Nd) w0).

(** Two channels: an array of shape Nd + (2,), the device after the batched
    plan when it held that array (handle 0; the profile is handle 1), and
    the same device after [set_sense] with the profile that is i everywhere
    (handle 2). *)
Definition chan0 : ndarray GZ :=
  mk_ndarray [2; 2] complex64 [(1, 2)%Z; (3, 4)%Z; (5, 6)%Z; (7, 8)%Z].
Definition prof_i : ndarray GZ :=
  mk_ndarray [2; 2] complex64 [(0, 1)%Z; (0, 1)%Z; (0, 1)%Z; (0, 1)%Z].
Definition wb : world GZ := world_of (plan 4 st0 None (Some 2) [chan0]).2.
Definition wb1 : world GZ := world_of (set_sense Pb (HostArr prof_i) wb).

(** The device of [w0] when [volume['gpu_coil_profile']] has been
    overwritten by an object that is no device array. *)
Definition w_lost : world GZ := mk_world (heap w0) PyObj 0.

(** A plan with 2^16 + 1 samples and 2^16 channels, so that M * batch is
    2^32 + 2^16: Nd = Kd = (1,), Jd = (1,), every sample reads cell 0 with
    weight 1.  A grid of shape Kd + (batch,) holding ones, and the device
    after [plan] when it held that grid (handle 0). *)
Definition st_wide : st_t GZ :=
  mk_st [1] [1] [1] (2 ^ 16 + 1)
    (mk_pELL (2 ^ 16 + 1) 1 1 1 [1] [0]
       (replicate (2 ^ 16 + 1) 0) (replicate (2 ^ 16 + 1) (re 1)))
    (mk_tSN [1] [re 1] [1] 1 [re 1]).
Definition P_wide : plan_t GZ := plan_attributes 4 st_wide None (Some (2 ^ 16)).
Definition grid_wide : ndarray GZ :=
  mk_ndarray [1; 2 ^ 16] complex64 (replicate (2 ^ 16) (re 1)).
Definition w_wide : world GZ :=
  world_of (plan 4 st_wide None (Some (2 ^ 16)) [grid_wide]).2.

End Exact.

(** ** Rounded arithmetic, for closed examples

    Gaussian integers whose parts are rounded toward zero to two
    significant bits after every operation: a floating-point format in
    small.  Addition is commutative and not associative:
    (16 + 4) + 4 = 16 and (4 + 4) + 16 = 24. *)
Module Rounded.

Definition rnd (z : Z) : Z :=
  let a := Z.abs z in
  let e := (Z.log2 a - 1)%Z in
  if (e <=? 0)%Z then z else (Z.sgn z * Z.shiftl (Z.shiftr a e) e)%Z.

Definition fl_scalar : Scalar (Z * Z) := {|
  czero := (0, 0)%Z;
  cone := (1, 0)%Z;
  cI := (0, 1)%Z;
  cadd := fun x y => (rnd (x.1 + y.1), rnd (x.2 + y.2))%Z;
  cmul := fun x y => (rnd (rnd (x.1 * y.1) - rnd (x.2 * y.2)),
                      rnd (rnd (x.1 * y.2) + rnd (x.2 * y.1)))%Z;
  cconj := fun x => (x.1, - x.2)%Z;
  cre := fun x => (x.1, 0)%Z;
  cim := fun x => (x.2, 0)%Z
|}.

(** Nd = Kd = (1,), Jd = (1,), M = 3: the three samples read cell 0 with
    weights 4, 2 and 2.  The image holds 1. *)
Definition st3 : st_t (Z * Z) :=
  mk_st [1] [1] [1] 3
    (mk_pELL 3 1 1 1 [1] [0] [0; 0; 0] [(4, 0)%Z; (2, 0)%Z; (2, 0)%Z])
    (mk_tSN [1] [(1, 0)%Z] [1] 1 [(1, 0)%Z]).
Definition P3 : plan_t (Z * Z) := plan_attributes 4 st3 None None.
Definition img3 : ndarray (Z * Z) := mk_ndarray [1] complex64 [(1, 0)%Z].
Definition w3 : world (Z * Z) :=
  world_of (plan (SC := fl_scalar) (KC := Exact.GZ_kernels) 4 st3 None None [img3]).2.

End Rounded.


(** * Further definitions *)

Section Effects.
Context {C : Type}.

(** [w'] differs from [w] only by buffers allocated since: every buffer of
    [w] holds what it held, the stored profile is the same value, and
    [self.to_device] has not been called. *)
Definition quiet (w w' : world C) : Prop :=
  (forall a arr, heap w !! a = Some arr -> heap w' !! a = Some arr) /\
  gpu_coil_profile w' = gpu_coil_profile w /\
  to_device_calls w' = to_device_calls w.

End Effects.

Section StageContents.
Context {C : Type} {SC : Scalar C} {KC : Kernels C}.

(** Contents of the arrays [s2x] and [x2s] produce, given the contents of
    the stored profile and of the argument: the weighted channels, the
    channels weighted in place by the conjugate profile, and their sum over
    the channels. *)
Definition s2x_data (P : plan_t C) (prof d : list C) : list C :=
  cMultiplyVecInplace prof
    (cPopulate (batch P) d (uninitialised (prod_list (multi_Nd P)))
       (batch P * Ndprod P))
    (batch P * Ndprod P).

Definition x2s_weighted (P : plan_t C) (prof d : list C) : list C :=
  cMultiplyConjVecInplace prof d (batch P * Ndprod P).

Definition x2s_data (P : plan_t C) (prof d : list C) : list C :=
  cAggregate (batch P) (x2s_weighted P prof d)
    (uninitialised (prod_list (Nd P))) (Ndprod P).

End StageContents.

(** ** The constructor: choice of the accelerator

    [__init__] up to the creation of the thread.  The host environment is
    what [helper.diagnose] and reikna report; creating the thread,
    reading the warp size and compiling the kernels are taken to succeed
    once an API object and a device are in hand. *)
Module Init.

Inductive backend := Cuda | Ocl.

#[global] Instance backend_eq_dec : EqDecision backend.
Proof. solve_decision. Defined.

Record device_t := mk_device { dev_id : nat; warp_size : nat }.

(** [diag_cuda], [diag_ocl]: the two flags of [helper.diagnose()], Python
    ints.  [cuda_platforms], [ocl_platforms]: for each API the devices of
    each platform, or [None] when creating the API object raises. *)
Record host_env := mk_env {
  diag_cuda : Z;
  diag_ocl : Z;
  cuda_platforms : option (list (list device_t));
  ocl_platforms : option (list (list device_t))
}.

Definition platforms_of (env : host_env) (b : backend) : option (list (list device_t)) :=
  match b with
  | Cuda => cuda_platforms env
  | Ocl => ocl_platforms env
  end.

(** The local variable [api]: not yet assigned, the string passed as [API],
    or the API object of reikna together with its platforms. *)
Inductive api_val :=
  | ApiUnbound
  | ApiStr (s : string)
  | ApiObject (b : backend) (pl : list (list device_t)).

(** [l[i]] for a Python int [i]: negative indices count from the end;
    [None] stands for IndexError. *)
Definition py_index {A} (l : list A) (i : Z) : option A :=
  let n := Z.of_nat (length l) in
  if bool_decide (0 <= i < n)%Z then l !! Z.to_nat i
  else if bool_decide (- n <= i < 0)%Z then l !! Z.to_nat (n + i)
  else None.

(** The [if None is API] statement: the value of [API] and the binding of
    [api] after it.  [flag is 1] on Python ints is equality with 1. *)
Definition choose_API (env : host_env) (API : option string) : option string * api_val :=
  match API with
  | None =>
      if bool_decide (diag_cuda env = 1%Z) then (Some "cuda", ApiUnbound)
      else if bool_decide (diag_ocl env = 1%Z) then (Some "ocl", ApiUnbound)
      else (None, ApiUnbound)
  | Some s => (Some s, ApiStr s)
  end.

(** The first statement of the [try] block: [Some] of the new binding of
    [api], or [None] when creating the API object raises. *)
Definition create_api (env : host_env) (API : option string) (api : api_val) : option api_val :=
  if bool_decide (API = Some "cuda") then ApiObject Cuda <$> cuda_platforms env
  else if bool_decide (API = Some "ocl") then ApiObject Ocl <$> ocl_platforms env
  else Some api.

(** The [try] block, whose [except] clause swallows every exception: the
    bindings of [api] and [device] after it ([None]: not assigned). *)
Definition try_select (env : host_env) (API : option string) (api : api_val)
    (platform_number device_number : Z) : api_val * option device_t :=
  match create_api env API api with
  | None => (api, None)
  | Some api' =>
      match api' with
      | ApiObject b pl =>
          match py_index pl platform_number with
          | Some devices => (api', py_index devices device_number)
          | None => (api', None)
          end
      | _ => (api', None)
      end
  end.

Inductive init_result :=
  | InitOk (b : backend) (d : device_t) (wavefront : nat)
  | InitRaise (e : exn).

(** [__init__(API, platform_number, device_number)]. *)
Definition init (env : host_env) (API : option string)
    (platform_number device_number : option Z) : init_result :=
  let '(API1, api0) := choose_API env API in
  let pn := default 0%Z platform_number in
  let dn := default 0%Z device_number in
  let '(api, device) := try_select env API1 api0 pn dn in
  (* [self.thr = api.Thread(device)] *)
  match api with
  | ApiUnbound => InitRaise (UnboundLocalError "api")
  | ApiStr _ => InitRaise (AttributeError "Thread")
  | ApiObject b _ =>
      match device with
      | None => InitRaise (UnboundLocalError "device")
      | Some d => InitOk b d (warp_size d)
      end
  end.

(** Both indexings of the [try] block, with the defaults of the two
    numbers. *)
Definition pick (pl : list (list device_t)) (platform_number device_number : option Z)
    : option device_t :=
  py_index pl (default 0%Z platform_number) ≫=
    fun devices => py_index devices (default 0%Z device_number).

(** The API that a call ends up asking for. *)
Definition requested (env : host_env) (API : option string) : option backend :=
  match (choose_API env API).1 with
  | Some s =>
      if bool_decide (s = "cuda") then Some Cuda
      else if bool_decide (s = "ocl") then Some Ocl
      else None
  | None => None
  end.

(** A host on which both APIs are detected: cuda has one platform with two
    devices, OpenCL one platform with one device.  And a host with OpenCL
    only, where creating the cuda API object raises. *)
Definition host_both : host_env :=
  mk_env 1 1 (Some [[mk_device 0 32; mk_device 1 32]]) (Some [[mk_device 2 64]]).
Definition host_ocl : host_env :=
  mk_env 0 1 None (Some [[mk_device 2 64]]).

End Init.

(** ** What is bound on the instance: [plan], [offload], [release]

    These methods are followed here at the level of the names they bind,
    read and delete on [self], which is what decides whether a later call
    finds what it needs: an instance is the set of its attribute names
    and, for the attributes that hold a dictionary, the set of its keys.
    The values are not represented. *)
Module Lifecycle.

Record instance := mk_instance {
  attrs : gset string;
  items : gmap string (gset string)
}.

(** AttributeError for a missing attribute, KeyError for a missing key. *)
Inductive obj_exn :=
  | NoAttribute (name : string)
  | NoKey (key : string).

Inductive outcome :=
  | Done (i : instance)
  | Fails (e : obj_exn) (i : instance).

(** [self.name] and [self.dict[key]]. *)
Inductive access :=
  | Attr (name : string)
  | Item (dict key : string).

(** One statement: what its right-hand side reads, in evaluation order,
    and what it binds or deletes. *)
Inductive stmt :=
  | SetAttr (name : string) (reads : list access)
  | NewDict (name : string) (keys : gset string) (reads : list access)
  | SetItem (dict key : string) (reads : list access)
  | DelAttr (name : string)
  | DelItem (dict key : string)
  | Eval (reads : list access).

Definition keys_of (i : instance) (d : string) : gset string :=
  default ∅ (items i !! d).

Definition check (a : access) (i : instance) : option obj_exn :=
  match a with
  | Attr n => if bool_decide (n ∈ attrs i) then None else Some (NoAttribute n)
  | Item d k =>
      if bool_decide (d ∈ attrs i)
      then if bool_decide (k ∈ keys_of i d) then None else Some (NoKey k)
      else Some (NoAttribute d)
  end.

(** The first access that fails. *)
Fixpoint check_all (reads : list access) (i : instance) : option obj_exn :=
  match reads with
  | [] => None
  | a :: reads' =>
      match check a i with
      | Some e => Some e
      | None => check_all reads' i
      end
  end.

Definition exec1 (s : stmt) (i : instance) : outcome :=
  match s with
  | SetAttr n reads =>
      match check_all reads i with
      | Some e => Fails e i
      | None => Done (mk_instance ({[n]} ∪ attrs i) (delete n (items i)))
      end
  | NewDict n ks reads =>
      match check_all reads i with
      | Some e => Fails e i
      | None => Done (mk_instance ({[n]} ∪ attrs i) (<[n := ks]> (items i)))
      end
  | SetItem d k reads =>
      (* the value is evaluated before the target [self.d] *)
      match check_all (reads ++ [Attr d]) i with
      | Some e => Fails e i
      | None => Done (mk_instance (attrs i) (<[d := {[k]} ∪ keys_of i d]> (items i)))
      end
  | DelAttr n =>
      match check (Attr n) i with
      | Some e => Fails e i
      | None => Done (mk_instance (attrs i ∖ {[n]}) (delete n (items i)))
      end
  | DelItem d k =>
      match check (Item d k) i with
      | Some e => Fails e i
      | None => Done (mk_instance (attrs i) (<[d := keys_of i d ∖ {[k]}]> (items i)))
      end
  | Eval reads =>
      match check_all reads i with
      | Some e => Fails e i
      | None => Done i
      end
  end.

Fixpoint exec (body : list stmt) (i : instance) : outcome :=
  match body with
  | [] => Done i
  | s :: body' =>
      match exec1 s i with
      | Done i' => exec body' i'
      | Fails e i' => Fails e i'
      end
  end.

(** [self.pELL[key] = ...(self.st['pELL'].field)], for the four scalars,
    and [self.pELL[key] = self.thr.to_device(self.st['pELL'].field...)]. *)
Definition pELL_scalar (key : string) : stmt :=
  SetItem "pELL" key [Item "st" "pELL"].
Definition pELL_table (key : string) (more : list access) : stmt :=
  SetItem "pELL" key ([Attr "thr"; Item "st" "pELL"] ++ more).

(** [offload]; [batched] tells which branch of [if self.batch > 1] is
    taken: the batched one reads [self.batch] once more. *)
Definition offload_body (batched : bool) : list stmt :=
  [ NewDict "pELL" ∅ [];
    pELL_scalar "nRow"; pELL_scalar "prodJd"; pELL_scalar "sumJd"; pELL_scalar "dim";
    pELL_table "Jd" []; pELL_table "meshindex" []; pELL_table "kindx" [];
    pELL_table "udata" [Attr "dtype"];
    NewDict "volume" ∅ [];
    SetItem "volume" "Nd_elements" [Attr "thr"; Attr "Nd_elements"];
    SetItem "volume" "Kd_elements" [Attr "thr"; Attr "Kd_elements"];
    SetItem "volume" "invNd_elements" [Attr "thr"; Attr "invNd_elements"];
    SetItem "volume" "Nd" [Attr "thr"; Item "st" "Nd"];
    SetItem "volume" "NdGPUorder" [Attr "thr"; Attr "NdCPUorder"];
    SetItem "volume" "KdGPUorder" [Attr "thr"; Attr "KdCPUorder"];
    SetItem "volume" "gpu_coil_profile" [Attr "thr"; Attr "multi_Nd"; Attr "dtype"];
    Eval [Item "st" "Nd"];
    NewDict "tSN" ∅ [];
    SetItem "tSN" "Td_elements" [Attr "thr"; Item "st" "tSN"];
    SetItem "tSN" "invTd_elements" [Attr "thr"; Item "st" "tSN"];
    SetItem "tSN" "Td" [Attr "thr"; Item "st" "tSN"];
    SetItem "tSN" "Tdims" [Item "st" "tSN"];
    SetItem "tSN" "tensor_sn" [Attr "thr"; Item "st" "tSN"];
    SetAttr "Ndprod" [Item "st" "Nd"];
    SetAttr "Kdprod" [Item "st" "Kd"];
    SetAttr "M" [Item "st" "M"];
    Eval [Attr "batch"];
    SetAttr "fft"
      ([Item "st" "Kd"] ++ (if batched then [Attr "batch"] else []) ++
       [Attr "dtype"; Attr "ft_axes"; Attr "thr"]);
    SetAttr "zero_scalar" [Attr "dtype"];
    DelItem "st" "pELL" ].

(** The attributes [__init__] binds when it succeeds; [API_given] and
    [cuda_detected] tell which of the two flags the choice of the API
    reads. *)
Definition init_body (API_given cuda_detected : bool) : list stmt :=
  [ SetAttr "dtype" [];
    SetAttr "cuda_flag" []; SetAttr "ocl_flag" [];
    Eval (if API_given then []
          else [Attr "cuda_flag"] ++ (if cuda_detected then [] else [Attr "ocl_flag"]));
    SetAttr "thr" []; SetAttr "device" [];
    Eval [Attr "thr"];
    SetAttr "wavefront" [];
    Eval [Attr "wavefront"];
    SetAttr "prg" [Attr "thr"; Attr "wavefront"] ].

(** [plan], before it calls [offload]: [st_keys] are the keys of the
    dictionary that [helper.plan] returns, [ft_given] tells whether
    [ft_axes] was passed, [single] whether
    [self.batch == 1 and self.parallel_flag == 0] holds and [batch_is_1]
    whether its first operand does. *)
Definition plan_attribute_body (st_keys : gset string) (ft_given batch_is_1 single : bool)
    : list stmt :=
  [ SetAttr "ndims" [];
    Eval (if ft_given then [] else [Attr "ndims"]);
    SetAttr "ft_axes" [];
    NewDict "st" st_keys [];
    SetAttr "parallel_flag" [];
    SetAttr "batch" [];
    SetAttr "Nd" [Item "st" "Nd"];
    SetAttr "Kd" [Item "st" "Kd"];
    Eval ([Attr "batch"] ++ (if batch_is_1 then [Attr "parallel_flag"] else []));
    SetAttr "multi_Nd" ([Attr "Nd"] ++ (if single then [] else [Attr "batch"]));
    SetAttr "multi_Kd" ([Attr "Kd"] ++ (if single then [] else [Attr "batch"]));
    SetAttr "multi_M" ([Item "st" "M"] ++ (if single then [] else [Attr "batch"]));
    SetAttr "invbatch" [Attr "batch"];
    SetAttr "Kdprod" [Item "st" "Kd"];
    SetAttr "Jdprod" [Item "st" "Jd"];
    SetAttr "Ndprod" [Item "st" "Nd"];
    SetAttr "Nd_elements" [Item "st" "Nd"];
    SetAttr "invNd_elements" [];
    SetAttr "Kd_elements" [Item "st" "Kd"];
    SetAttr "NdCPUorder" [Item "st" "Nd"; Item "st" "Kd"];
    SetAttr "KdCPUorder" [];
    SetAttr "nelem" [] ].

Definition plan_body (st_keys : gset string) (ft_given batch_is_1 single batched : bool)
    : list stmt :=
  plan_attribute_body st_keys ft_given batch_is_1 single ++ offload_body batched.

(** [plan] up to and including the four scalars of the interpolator, the
    statements that run before [offload] first reads [self.thr]. *)
Definition plan_front (K : gset string) (ft b1 sg bt : bool) : list stmt :=
  plan_attribute_body K ft b1 sg ++ take 5 (offload_body bt).

(** The keys of [st] that [plan] and [offload] read. *)
Definition required_keys : gset string := {["Nd"; "Kd"; "Jd"; "M"; "pELL"; "tSN"]}.

(** [release]. *)
Definition release_body : list stmt :=
  [ DelAttr "volume"; DelAttr "prg"; DelAttr "pELL"; Eval [Attr "thr"]; DelAttr "thr" ].

Definition offload (batched : bool) (i : instance) : outcome :=
  exec (offload_body batched) i.
Definition release (i : instance) : outcome := exec release_body i.
Definition plan (st_keys : gset string) (ft_given batch_is_1 single batched : bool)
    (i : instance) : outcome :=
  exec (plan_body st_keys ft_given batch_is_1 single batched) i.

(** The names [release] unbinds. *)
Definition released_names : gset string := {["volume"; "prg"; "pELL"; "thr"]}.

(** A new object, before [__init__] has bound anything. *)
Definition no_instance : instance := mk_instance ∅ ∅.

(** [i0] binds no more than [i]. *)
Definition below (i0 i : instance) : Prop :=
  attrs i0 ⊆ attrs i /\ forall d, keys_of i0 d ⊆ keys_of i d.

(** [s] does what [s0] does, reads no name that [s0] does not read, and
    creates a dictionary with at least the keys [s0] gives it. *)
Definition stmt_le (s0 s : stmt) : Prop :=
  match s0, s with
  | SetAttr n0 r0, SetAttr n r => n0 = n /\ r ⊆ r0
  | NewDict n0 ks0 r0, NewDict n ks r => n0 = n /\ r ⊆ r0 /\ ks0 ⊆ ks
  | SetItem d0 k0 r0, SetItem d k r => d0 = d /\ k0 = k /\ r ⊆ r0
  | DelAttr n0, DelAttr n => n0 = n
  | DelItem d0 k0, DelItem d k => d0 = d /\ k0 = k
  | Eval r0, Eval r => r ⊆ r0
  | _, _ => False
  end.

(** The attribute names a statement binds, rebinds or deletes, and the
    dictionaries it changes. *)
Definition touched1 (s : stmt) : gset string :=
  match s with
  | SetAttr n _ | NewDict n _ _ | DelAttr n => {[n]}
  | SetItem _ _ _ | DelItem _ _ | Eval _ => ∅
  end.

Definition touched (body : list stmt) : gset string :=
  ⋃ (touched1 <$> body).

(** What [plan] needs to find on the instance. *)
Definition constructed : instance := mk_instance {["thr"; "dtype"]} ∅.

Definition instance_of (o : outcome) : instance :=
  match o with
  | Done i => i
  | Fails _ i => i
  end.

(** One life of an instance: constructed with cuda detected, planned
    without [ft_axes] and without [batch], released.  [before_offload] is
    the instance where [plan] calls [offload], [planned] the one it
    leaves. *)
Definition initialised : instance := instance_of (exec (init_body false true) no_instance).
Definition before_offload : instance :=
  instance_of (exec (plan_attribute_body required_keys false true true) initialised).
Definition planned : instance := instance_of (offload false before_offload).
Definition released : instance := instance_of (release planned).

End Lifecycle.

(** * Properties *)

Section Properties.
Context {C : Type} {SC : Scalar C} {KC : Kernels C}.
Implicit Types (w : world C) (h : list (ndarray C)) (arr : ndarray C)
  (P : plan_t C) (v x y : pyval C) (a : nat).

(** ** Running the primitives *)

Lemma lookup_snoc h arr : (h ++ [arr]) !! length h = Some arr.
Proof. by rewrite list_lookup_middle. Qed.

Lemma insert_snoc h arr arr' : <[length h := arr']> (h ++ [arr]) = h ++ [arr'].
Proof.
  rewrite insert_app_r_alt by lia.
  by replace (length h - length h) with 0 by lia.
Qed.

Lemma lookup_app_add h (l : list (ndarray C)) i : (h ++ l) !! (length h + i) = l !! i.
Proof.
  rewrite lookup_app_r by lia.
  by replace (length h + i - length h) with i by lia.
Qed.

Lemma lookup_old h arr a arr0 : h !! a = Some arr0 -> (h ++ [arr]) !! a = Some arr0.
Proof. intros Ha. by apply lookup_app_l_Some. Qed.

Lemma bind_ok {A B} (m : M C A) (f : A -> M C B) w r w' :
  m w = Ok r w' -> (m ≫= f) w = f r w'.
Proof. intros Hm. unfold mbind, M_bind. by rewrite Hm. Qed.

Lemma bind_raise {A B} (m : M C A) (f : A -> M C B) w e w' :
  m w = Raise e w' -> (m ≫= f) w = Raise e w'.
Proof. intros Hm. unfold mbind, M_bind. by rewrite Hm. Qed.

Lemma length_uninitialised n : length (uninitialised n) = n.
Proof. unfold uninitialised. by rewrite length_map, length_seq. Qed.

Lemma thr_array_run shp dt w :
  thr_array shp dt w =
    Ok (GpuArr (length (heap w)))
       (set_heap (heap w ++ [mk_ndarray shp dt (uninitialised (prod_list shp))]) w).
Proof. reflexivity. Qed.

Lemma deref_run op a arr w :
  heap w !! a = Some arr -> deref op (GpuArr a) w = Ok (a, arr) w.
Proof. intros Ha. unfold deref. by rewrite Ha. Qed.

Lemma shape_of_run a arr w :
  heap w !! a = Some arr -> shape_of (GpuArr a) w = Ok (shape arr) w.
Proof. intros Ha. unfold shape_of. by rewrite Ha. Qed.

Lemma launch_inplace_run op f a arr w :
  heap w !! a = Some arr ->
  launch_inplace op f (GpuArr a) w =
    Ok tt (set_heap (<[a := with_data f arr]> (heap w)) w).
Proof.
  intros Ha. unfold launch_inplace.
  by rewrite (bind_ok _ _ _ _ _ (deref_run op a arr w Ha)).
Qed.

Lemma fill_run c a arr w :
  heap w !! a = Some arr ->
  fill c (GpuArr a) w =
    Ok (GpuArr a)
       (set_heap (<[a := with_data (fun d => replicate (length d) c) arr]> (heap w)) w).
Proof.
  intros Ha. unfold fill.
  by rewrite (bind_ok _ _ _ _ _ (deref_run "fill" a arr w Ha)).
Qed.

Lemma thr_copy_array_run a arr b barr w :
  heap w !! a = Some arr -> heap w !! b = Some barr ->
  thr_copy_array (GpuArr a) (GpuArr b) w =
    Ok tt (set_heap (<[b := with_data (fun _ => data arr) barr]> (heap w)) w).
Proof.
  intros Ha Hb. unfold thr_copy_array.
  rewrite (bind_ok _ _ _ _ _ (deref_run "copy_array" a arr w Ha)).
  by rewrite (bind_ok _ _ _ _ _ (deref_run "copy_array" b barr w Hb)).
Qed.

Lemma thr_array_fill_run shp dt c w :
  (thr_array shp dt ≫= fill c) w =
    Ok (GpuArr (length (heap w)))
       (set_heap (heap w ++ [mk_ndarray shp dt (replicate (prod_list shp) c)]) w).
Proof.
  rewrite (bind_ok _ _ _ _ _ (thr_array_run shp dt w)).
  erewrite fill_run by apply lookup_snoc.
  unfold with_data, set_heap.
  cbn [heap gpu_coil_profile to_device_calls data shape dtype].
  by rewrite insert_snoc, length_uninitialised.
Qed.

Lemma try_except_ok {A} (body : M C A) handler w r w' :
  body w = Ok r w' -> try_except body handler w = Ok r w'.
Proof. intros Hb. unfold try_except. by rewrite Hb. Qed.

Lemma try_except_raise {A} (body : M C A) handler w e w' :
  body w = Raise e w' -> try_except body handler w = handler e w'.
Proof. intros Hb. unfold try_except. by rewrite Hb. Qed.

(** Lookup of a live handle in a heap that has grown since. *)
Ltac heap_lookup :=
  cbn [heap set_heap];
  first [ eassumption
        | apply lookup_snoc
        | apply lookup_old; heap_lookup ].

(** One monadic step whose outcome is given by the run lemma [lem]. *)
Ltac step lem :=
  erewrite bind_ok; [ | eapply lem; heap_lookup ];
  unfold with_data, set_heap;
  cbn [heap gpu_coil_profile to_device_calls data shape dtype];
  rewrite ?insert_snoc.

(** ** The stages on a device-resident argument *)

Lemma x2xx_device P a arr w :
  heap w !! a = Some arr ->
  x2xx P (GpuArr a) w =
    Ok (GpuArr (length (heap w)))
       (set_heap (heap w ++
          [mk_ndarray (shape arr) complex64
             (cTensorMultiply (batch P) (tSN P) (batch P * Ndprod P) (data arr))]) w).
Proof.
  intros Ha. unfold x2xx.
  step shape_of_run. step thr_array_run. step thr_copy_array_run.
  step launch_inplace_run. reflexivity.
Qed.

Lemma xx2x_device P a arr w :
  heap w !! a = Some arr ->
  xx2x P (GpuArr a) w =
    Ok (GpuArr (length (heap w)))
       (set_heap (heap w ++
          [mk_ndarray (shape arr) complex64
             (cTensorMultiply (batch P) (tSN P) (batch P * Ndprod P) (data arr))]) w).
Proof.
  intros Ha. unfold xx2x.
  step shape_of_run. step thr_array_run. step thr_copy_array_run.
  step launch_inplace_run. reflexivity.
Qed.

Lemma xx2k_device P a arr w :
  heap w !! a = Some arr ->
  xx2k P (GpuArr a) w =
    Ok (GpuArr (length (heap w)))
       (set_heap (heap w ++
          [mk_ndarray (multi_Kd P) complex64
             (fft_exec false (fft_shape P) (ft_axes P)
                (cTensorCopy (batch P) (Nd P) (Kd P) (data arr)
                   (replicate (prod_list (multi_Kd P)) czero) 1 (Ndprod P)))]) w).
Proof.
  intros Ha. unfold xx2k.
  step thr_array_run. step fill_run. step deref_run.
  step launch_inplace_run. step launch_inplace_run.
  by rewrite length_uninitialised.
Qed.

Lemma k2y_device P a arr w :
  heap w !! a = Some arr ->
  k2y P (GpuArr a) w =
    Ok (GpuArr (length (heap w)))
       (set_heap (heap w ++
          [mk_ndarray (multi_M P) complex64
             (pELL_spmv_mCoil (batch P) (pELL P) (data arr)
                (replicate (prod_list (multi_M P)) czero)
                (uint32 (nRow (pELL P) * batch P)))]) w).
Proof.
  intros Ha. unfold k2y.
  step thr_array_fill_run. step deref_run. step launch_inplace_run.
  reflexivity.
Qed.

Lemma k2xx_device P a arr w :
  heap w !! a = Some arr ->
  k2xx P (GpuArr a) w =
    Ok (GpuArr (length (heap w)))
       (set_heap (<[a := with_data (fft_exec true (fft_shape P) (ft_axes P)) arr]> (heap w) ++
          [mk_ndarray (multi_Nd P) complex64
             (cTensorCopy (batch P) (Nd P) (Kd P)
                (fft_exec true (fft_shape P) (ft_axes P) (data arr))
                (replicate (prod_list (multi_Nd P)) czero) (-1) (Ndprod P))]) w).
Proof.
  intros Ha. unfold k2xx.
  assert (Hlt : a < length (heap w)) by (by eapply lookup_lt_Some).
  step launch_inplace_run.
  match goal with |- context [ <[a := ?x]> (heap w) ] => set (arr' := x) end.
  set (h1 := <[a := arr']> (heap w)).
  assert (Ha1 : h1 !! a = Some arr') by (by apply list_lookup_insert_eq).
  assert (Hlen : length h1 = length (heap w)) by apply length_insert.
  step thr_array_run. step fill_run. step deref_run.
  step launch_inplace_run.
  by rewrite length_uninitialised, Hlen.
Qed.

Lemma store_run a arr w :
  store a arr w = Ok tt (set_heap (<[a := arr]> (heap w)) w).
Proof. reflexivity. Qed.

Lemma arr_scale_run c a arr w :
  heap w !! a = Some arr ->
  arr_scale c (GpuArr a) w =
    Ok (GpuArr (length (heap w)))
       (set_heap (heap w ++ [mk_ndarray (shape arr) complex64 (map (cmul c) (data arr))]) w).
Proof.
  intros Ha. unfold arr_scale.
  by rewrite (bind_ok _ _ _ _ _ (deref_run "mul" a arr w Ha)).
Qed.

Lemma arr_add_run a arr b barr w :
  heap w !! a = Some arr -> heap w !! b = Some barr ->
  arr_add (GpuArr a) (GpuArr b) w =
    Ok (GpuArr (length (heap w)))
       (set_heap (heap w ++
          [mk_ndarray (shape arr) complex64 (zip_with cadd (data arr) (data barr))]) w).
Proof.
  intros Ha Hb. unfold arr_add.
  rewrite (bind_ok _ _ _ _ _ (deref_run "add" a arr w Ha)).
  by rewrite (bind_ok _ _ _ _ _ (deref_run "add" b barr w Hb)).
Qed.

Lemma y2k_device P a arr w :
  heap w !! a = Some arr ->
  let zeros := replicate (prod_list (multi_Kd P)) czero in
  let g := pELL_spmvh_mCoil (batch P) (pELL P) zeros zeros (data arr)
             (uint32 (nRow (pELL P) * prodJd (pELL P) * batch P)) in
  y2k P (GpuArr a) w =
    Ok (GpuArr (length (heap w) + 3))
       (set_heap (heap w ++
          [mk_ndarray (multi_Kd P) float32 g.1;
           mk_ndarray (multi_Kd P) float32 g.2;
           mk_ndarray (multi_Kd P) complex64 (map (cmul cI) g.2);
           mk_ndarray (multi_Kd P) complex64
             (zip_with cadd g.1 (map (cmul cI) g.2))]) w).
Proof.
  intros Ha zeros g. unfold y2k.
  step thr_array_fill_run. step thr_array_fill_run.
  step deref_run. step deref_run. step deref_run.
  fold zeros. fold g. destruct g as [dx dy]. cbn [fst snd].
  step store_run.
  rewrite insert_app_l by (rewrite length_app; simpl; lia).
  rewrite insert_snoc.
  step store_run.
  rewrite insert_app_r_alt by (rewrite !length_app; simpl; lia).
  replace (length (heap w ++ _) - length (heap w ++ _)) with 0
    by (rewrite !length_app; simpl; lia).
  cbn [insert list_insert].
  erewrite bind_ok;
    [ | eapply arr_scale_run; cbn [heap];
        apply list_lookup_middle; rewrite !length_app; simpl; lia ].
  unfold set_heap. cbn [heap gpu_coil_profile to_device_calls data shape dtype].
  erewrite arr_add_run;
    [ | cbn [heap]; apply lookup_old, lookup_old, lookup_snoc
      | cbn [heap]; apply lookup_snoc ].
  unfold set_heap.
  cbn [heap gpu_coil_profile to_device_calls data shape dtype].
  rewrite !length_app. simpl length.
  rewrite <- !app_assoc. simpl app.
  by replace (length (heap w) + 1 + 1 + 1) with (length (heap w) + 3) by lia.
Qed.

(** ** The two pipelines on a device-resident argument *)

Lemma forward_device P a arr w :
  heap w !! a = Some arr ->
  forward P (GpuArr a) w =
    Ok (GpuArr (length (heap w) + 2))
       (set_heap (heap w ++ forward_buffers P arr) w).
Proof.
  intros Ha. unfold forward.
  erewrite bind_ok; [ | apply try_except_ok; by apply x2xx_device ].
  step xx2k_device.
  erewrite k2y_device by heap_lookup.
  unfold set_heap, forward_buffers, k2y_data, xx2k_data, x2xx_data.
  cbn [heap gpu_coil_profile to_device_calls data shape dtype].
  rewrite !length_app. simpl length.
  rewrite <- !app_assoc. simpl app.
  by replace (length (heap w) + 1 + 1) with (length (heap w) + 2) by lia.
Qed.

Lemma adjoint_device P a arr w :
  heap w !! a = Some arr ->
  adjoint P (GpuArr a) w =
    Ok (GpuArr (length (heap w) + 5))
       (set_heap (heap w ++ adjoint_buffers P arr) w).
Proof.
  intros Ha. unfold adjoint.
  erewrite bind_ok; [ | apply try_except_ok; by apply y2k_device ].
  erewrite bind_ok; last first.
  { eapply k2xx_device. cbn [heap set_heap].
    by rewrite lookup_app_add. }
  unfold set_heap, with_data.
  cbn [heap gpu_coil_profile to_device_calls data shape dtype].
  rewrite insert_app_r.
  cbn [insert list_insert].
  erewrite xx2x_device
    by (cbn [heap]; rewrite (length_app (heap w)), <- app_assoc, lookup_app_add;
        reflexivity).
  unfold set_heap, adjoint_buffers, xx2x_data, k2xx_data, y2k_data, y2k_accum.
  cbn [heap gpu_coil_profile to_device_calls data shape dtype].
  rewrite !length_app. simpl length.
  rewrite <- !app_assoc. simpl app.
  by replace (length (heap w) + 4 + 1) with (length (heap w) + 5) by lia.
Qed.

(** ** Orchestration *)

(** C1.  For a planned instance and a device-resident image, [forward] runs
    exactly the stages [x2xx], [xx2k], [k2y] in this order: it returns what
    [k2y(xx2k(x2xx(image)))] returns, and the only change to the device is
    the three buffers the stages allocate, the last of which holds the
    composed contents. *)
Theorem forward_is_k2y_xx2k_x2xx P a arr w :
  heap w !! a = Some arr ->
  forward P (GpuArr a) w =
    (xx ← x2xx P (GpuArr a); k ← xx2k P xx; k2y P k) w /\
  forward P (GpuArr a) w =
    Ok (GpuArr (length (heap w) + 2))
       (set_heap (heap w ++ forward_buffers P arr) w) /\
  (heap w ++ forward_buffers P arr) !! (length (heap w) + 2) =
    Some (mk_ndarray (multi_M P) complex64
            (k2y_data P (xx2k_data P (x2xx_data P (data arr))))).
Proof.
  intros Ha.
  split; [ | split; [ by apply forward_device | by rewrite lookup_app_add ] ].
  unfold forward.
  erewrite bind_ok; [ | apply try_except_ok; by apply x2xx_device ].
  symmetry.
  erewrite bind_ok; [ reflexivity | by apply x2xx_device ].
Qed.

(** C2.  For a planned instance and a device-resident sample vector,
    [adjoint] runs exactly the stages [y2k], [k2xx], [xx2x] in this order:
    it returns what [xx2x(k2xx(y2k(samples)))] returns, and the only change
    to the device is the buffers these stages allocate, the last of which
    holds the composed contents.  The multiply of [xx2x] on exit is the one
    of [x2xx] on entry. *)
Theorem adjoint_is_xx2x_k2xx_y2k P a arr w :
  heap w !! a = Some arr ->
  adjoint P (GpuArr a) w =
    (k ← y2k P (GpuArr a); xx ← k2xx P k; xx2x P xx) w /\
  adjoint P (GpuArr a) w =
    Ok (GpuArr (length (heap w) + 5))
       (set_heap (heap w ++ adjoint_buffers P arr) w) /\
  (heap w ++ adjoint_buffers P arr) !! (length (heap w) + 5) =
    Some (mk_ndarray (multi_Nd P) complex64
            (xx2x_data P (k2xx_data P (y2k_data P (data arr))))) /\
  (forall d, xx2x_data P d = x2xx_data P d).
Proof.
  intros Ha.
  split; [ | split; [ by apply adjoint_device | by rewrite lookup_app_add ] ].
  unfold adjoint.
  erewrite bind_ok; [ | apply try_except_ok; by apply y2k_device ].
  symmetry.
  erewrite bind_ok; [ reflexivity | by apply y2k_device ].
Qed.

(** ** What [plan] fixes *)

Lemma plan_batch wf (st : st_t C) ax barg :
  batch (plan_attributes wf st ax barg) =
    match barg with None => 1 | Some n => uint32 n end.
Proof. by destruct barg. Qed.

Lemma plan_multi_Nd wf (st : st_t C) ax barg :
  multi_Nd (plan_attributes wf st ax barg) =
    match barg with None => st_Nd st | Some n => st_Nd st ++ [uint32 n] end.
Proof.
  destruct barg as [n|]; [ | reflexivity ].
  unfold plan_attributes. cbn [multi_Nd].
  replace (bool_decide (1 = 0)) with false by reflexivity.
  by rewrite andb_false_r.
Qed.

Lemma plan_multi_M wf (st : st_t C) ax barg :
  multi_M (plan_attributes wf st ax barg) =
    match barg with None => [st_M st] | Some n => [st_M st; uint32 n] end.
Proof.
  destruct barg as [n|]; [ | reflexivity ].
  unfold plan_attributes. cbn [multi_M].
  replace (bool_decide (1 = 0)) with false by reflexivity.
  by rewrite andb_false_r.
Qed.

Lemma plan_multi_M_size wf (st : st_t C) ax barg :
  let P := plan_attributes wf st ax barg in
  prod_list (multi_M P) = st_M st * batch P.
Proof.
  intros P. unfold P. rewrite plan_multi_M, plan_batch.
  destruct barg; cbn [prod_list foldr]; lia.
Qed.

(** ** 32-bit attributes and launch sizes *)

Lemma of_nat_pow2 k : Z.of_nat (2 ^ k) = (2 ^ Z.of_nat k)%Z.
Proof. by rewrite Nat2Z.inj_pow. Qed.

Lemma uint32_small n : n < 2 ^ 32 -> uint32 n = n.
Proof.
  intros Hn. apply Nat2Z.inj_lt in Hn. rewrite of_nat_pow2 in Hn.
  unfold uint32. rewrite N.mod_small; [ apply Nat2N.id | ]. lia.
Qed.

Lemma int32_small n : n < 2 ^ 31 -> Z.to_nat (int32 n) = n.
Proof.
  intros Hn. apply Nat2Z.inj_lt in Hn. rewrite of_nat_pow2 in Hn.
  unfold int32. rewrite Z.mod_small by lia. lia.
Qed.

(** ** Interpolation *)

Lemma elementwise_lookup n f (out : list C) i (z : C) :
  out !! i = Some z ->
  elementwise n f out !! i = Some (if decide (i < n) then f i z else z).
Proof.
  intros Hi. unfold elementwise. rewrite list_lookup_imap, Hi. reflexivity.
Qed.

Lemma elementwise_length n f (out : list C) :
  length (elementwise n f out) = length out.
Proof. apply length_imap. Qed.

Lemma elementwise_beyond n f (out : list C) i (z : C) :
  n <= i -> out !! i = Some z -> elementwise n f out !! i = Some z.
Proof.
  intros Hn Hi. rewrite (elementwise_lookup n f out i z Hi).
  by rewrite decide_False by lia.
Qed.

(** C4 (as amended).  [k2y(k)] returns a new array [y] of shape [multi_M]
    which it has filled with zeros before the kernel is launched: an entry
    that the launch does not reach is zero.  The launch has
    uint32(nRow * batch) work groups, one for each row of each channel.
    For a planned instance whose interpolator has one row per sample and
    whose M * batch is below 2^32, these are all the pairs: for every
    sample m < M and channel b < batch,
    y[m,b] = sum for j = 0 .. prodJd-1 of weight[m,j] * k[neighborIndex[m,j], b],
    the prodJd terms being added in order to a zero partial sum. *)
Theorem k2y_interpolates wf (st : st_t C) ax barg a arr w :
  let P := plan_attributes wf st ax barg in
  heap w !! a = Some arr ->
  exists yarr,
    k2y P (GpuArr a) w =
      Ok (GpuArr (length (heap w))) (set_heap (heap w ++ [yarr]) w) /\
    shape yarr = multi_M P /\
    length (data yarr) = st_M st * batch P /\
    (forall i,
       uint32 (nRow (pELL P) * batch P) <= i -> i < st_M st * batch P ->
       data yarr !! i = Some czero) /\
    (nRow (st_pELL st) = st_M st ->
     st_M st * batch P < 2 ^ 32 ->
     forall m b, m < st_M st -> b < batch P ->
       data yarr !! (m * batch P + b) =
         Some (foldl (fun acc j =>
                        cadd acc
                          (cmul (weight (pELL P) m j)
                             (default czero
                                (data arr !! (neighborIndex (pELL P) m j * batch P + b)))))
                     czero (seq 0 (prodJd (pELL P))))).
Proof.
  intros P Ha.
  assert (Hsize : prod_list (multi_M P) = st_M st * batch P)
    by apply plan_multi_M_size.
  eexists. split; [ by apply k2y_device | ]. split; [ reflexivity | ].
  cbn [data]. unfold pELL_spmv_mCoil. rewrite Hsize.
  split; [ by rewrite elementwise_length, length_replicate | ]. split.
  - intros i Hge Hlt. apply elementwise_beyond; [ exact Hge | ].
    by apply lookup_replicate_2.
  - intros Hrow Hbound m b Hm Hb.
    assert (Hi : m * batch P + b < st_M st * batch P) by nia.
    assert (HM : st_M st < 2 ^ 32) by nia.
    assert (HnRow : nRow (pELL P) = st_M st).
    { change (nRow (pELL P)) with (uint32 (nRow (st_pELL st))).
      rewrite Hrow. by apply uint32_small. }
    erewrite elementwise_lookup by (by apply lookup_replicate_2).
    rewrite HnRow, (uint32_small _ Hbound).
    rewrite decide_True by exact Hi.
    unfold interp_sum.
    rewrite Nat.div_add_l by lia.
    rewrite Nat.div_small by lia.
    rewrite Nat.add_0_r.
    replace ((m * batch P + b) mod batch P) with b; [ reflexivity | ].
    rewrite Nat.add_comm, Nat.Div0.mod_add. symmetry. by apply Nat.mod_small.
Qed.

(** ** Shapes *)

(** C7.  For a planned instance, [forward] on a device-resident image
    returns an array of shape (M,) when the plan is single-channel (no
    [batch] given) and (M, batch) when it is batched; [adjoint] on a
    device-resident sample array returns an array of shape Nd, respectively
    Nd + (batch,). *)
Theorem forward_adjoint_shapes wf (st : st_t C) ax barg a arr w :
  let P := plan_attributes wf st ax barg in
  heap w !! a = Some arr ->
  (exists r w' yarr,
     forward P (GpuArr a) w = Ok (GpuArr r) w' /\
     heap w' !! r = Some yarr /\
     shape yarr = match barg with
                  | None => [st_M st]
                  | Some _ => [st_M st; batch P]
                  end) /\
  (exists r w' xarr,
     adjoint P (GpuArr a) w = Ok (GpuArr r) w' /\
     heap w' !! r = Some xarr /\
     shape xarr = match barg with
                  | None => st_Nd st
                  | Some _ => st_Nd st ++ [batch P]
                  end).
Proof.
  intros P Ha. split.
  - do 3 eexists. split; [ by apply forward_device | ].
    cbn [heap set_heap]. rewrite lookup_app_add. split; [ reflexivity | ].
    cbn [shape]. unfold P. rewrite plan_multi_M, plan_batch. by destruct barg.
  - do 3 eexists. split; [ by apply adjoint_device | ].
    cbn [heap set_heap]. rewrite lookup_app_add. split; [ reflexivity | ].
    cbn [shape]. unfold P. rewrite plan_multi_Nd, plan_batch. by destruct barg.
Qed.

(** ** Frame *)

(** C9.  [forward] and [adjoint] do not write to their argument: on a
    device-resident argument both return, and afterwards the argument's
    buffer, like every buffer that existed before the call, holds what it
    held before.  The scaling stages [x2xx] and [xx2x] return a newly
    allocated array, different from their argument, that holds the scaled
    copy, and leave the argument as it was. *)
Theorem forward_adjoint_keep_argument P a arr w :
  heap w !! a = Some arr ->
  (exists r w',
     forward P (GpuArr a) w = Ok r w' /\
     heap w' !! a = Some arr /\
     forall a' arr', heap w !! a' = Some arr' -> heap w' !! a' = Some arr') /\
  (exists r w',
     adjoint P (GpuArr a) w = Ok r w' /\
     heap w' !! a = Some arr /\
     forall a' arr', heap w !! a' = Some arr' -> heap w' !! a' = Some arr') /\
  (exists r w',
     x2xx P (GpuArr a) w = Ok (GpuArr r) w' /\
     r ≠ a /\ heap w !! r = None /\
     heap w' !! a = Some arr /\
     heap w' !! r = Some (mk_ndarray (shape arr) complex64 (x2xx_data P (data arr)))) /\
  (exists r w',
     xx2x P (GpuArr a) w = Ok (GpuArr r) w' /\
     r ≠ a /\ heap w !! r = None /\
     heap w' !! a = Some arr /\
     heap w' !! r = Some (mk_ndarray (shape arr) complex64 (xx2x_data P (data arr)))).
Proof.
  intros Ha.
  assert (Hlt : a < length (heap w)) by (by eapply lookup_lt_Some).
  repeat split.
  - do 2 eexists. split; [ by apply forward_device | ].
    cbn [heap set_heap]. split; [ | intros a' arr' Ha' ]; by apply lookup_app_l_Some.
  - do 2 eexists. split; [ by apply adjoint_device | ].
    cbn [heap set_heap]. split; [ | intros a' arr' Ha' ]; by apply lookup_app_l_Some.
  - do 2 eexists. split; [ by apply x2xx_device | ].
    cbn [heap set_heap]. repeat split.
    + lia.
    + by apply lookup_ge_None_2.
    + by apply lookup_old.
    + apply lookup_snoc.
  - do 2 eexists. split; [ by apply xx2x_device | ].
    cbn [heap set_heap]. repeat split.
    + lia.
    + by apply lookup_ge_None_2.
    + by apply lookup_old.
    + apply lookup_snoc.
Qed.

(** ** The multi-channel distributor *)

Lemma get_coil_run w : get_coil w = Ok (gpu_coil_profile w) w.
Proof. reflexivity. Qed.

Lemma s2x_device P a arr c parr w :
  heap w !! a = Some arr ->
  gpu_coil_profile w = GpuArr c ->
  heap w !! c = Some parr ->
  s2x P (GpuArr a) w =
    Ok (GpuArr (length (heap w)))
       (set_heap (heap w ++
          [mk_ndarray (multi_Nd P) complex64
             (cMultiplyVecInplace (data parr)
                (cPopulate (batch P) (data arr)
                   (uninitialised (prod_list (multi_Nd P)))
                   (batch P * Ndprod P))
                (batch P * Ndprod P))]) w).
Proof.
  intros Ha Hc Hp. unfold s2x.
  step thr_array_run. step deref_run. step launch_inplace_run.
  step get_coil_run. rewrite Hc.
  step deref_run. step launch_inplace_run.
  reflexivity.
Qed.

Lemma x2s_device P a arr c parr w :
  heap w !! a = Some arr ->
  gpu_coil_profile w = GpuArr c ->
  heap w !! c = Some parr ->
  let d := cMultiplyConjVecInplace (data parr) (data arr) (batch P * Ndprod P) in
  x2s P (GpuArr a) w =
    Ok (GpuArr (length (heap w)))
       (set_heap (<[a := mk_ndarray (shape arr) (dtype arr) d]> (heap w) ++
          [mk_ndarray (Nd P) complex64
             (cAggregate (batch P) d
                (uninitialised (prod_list (Nd P))) (Ndprod P))]) w).
Proof.
  intros Ha Hc Hp d. unfold x2s.
  assert (Hlt : a < length (heap w)) by (by eapply lookup_lt_Some).
  step thr_array_run. step get_coil_run. rewrite Hc.
  step deref_run. step launch_inplace_run.
  rewrite insert_app_l by exact Hlt.
  fold d.
  set (h1 := <[a := _]> (heap w)).
  assert (Ha1 : h1 !! a = Some (mk_ndarray (shape arr) (dtype arr) d))
    by (by apply list_lookup_insert_eq).
  assert (Hlen : length (heap w) = length h1) by (symmetry; apply length_insert).
  step deref_run.
  rewrite Hlen.
  step launch_inplace_run.
  reflexivity.
Qed.

(** C10 (as amended).  [x2s] writes into its argument: after the call the
    buffer passed as [x] holds, for every index i below batch * Ndprod,
    the product x[i] * conj(profile[i]) in place of x[i] (shape and size are
    kept, and the sum over the channels is taken from these products);
    [s2x] leaves the buffer passed as [s] as it was. *)
Theorem x2s_overwrites_s2x_keeps P a arr c parr w :
  heap w !! a = Some arr ->
  gpu_coil_profile w = GpuArr c ->
  heap w !! c = Some parr ->
  (exists r w' xarr,
     x2s P (GpuArr a) w = Ok (GpuArr r) w' /\
     heap w' !! a = Some xarr /\
     shape xarr = shape arr /\
     length (data xarr) = length (data arr) /\
     (forall i z p,
        i < batch P * Ndprod P ->
        data arr !! i = Some z -> data parr !! i = Some p ->
        data xarr !! i = Some (cmul z (cconj p))) /\
     heap w' !! r =
       Some (mk_ndarray (Nd P) complex64
               (cAggregate (batch P) (data xarr)
                  (uninitialised (prod_list (Nd P))) (Ndprod P)))) /\
  (exists r w', s2x P (GpuArr a) w = Ok r w' /\ heap w' !! a = Some arr).
Proof.
  intros Ha Hc Hp.
  assert (Hlt : a < length (heap w)) by (by eapply lookup_lt_Some).
  split.
  - do 3 eexists. split; [ by eapply x2s_device | ].
    cbn [heap set_heap]. split.
    { apply lookup_app_l_Some. by apply list_lookup_insert_eq. }
    cbn [shape data]. split; [ reflexivity | ].
    split; [ apply elementwise_length | ].
    split.
    + intros i z p Hi Hz Hpi. unfold cMultiplyConjVecInplace.
      erewrite elementwise_lookup by exact Hz.
      by rewrite decide_True, Hpi by exact Hi.
    + rewrite <- (length_insert (heap w) a
                   (mk_ndarray (shape arr) (dtype arr)
                      (cMultiplyConjVecInplace (data parr) (data arr)
                         (batch P * Ndprod P)))) at 1.
      apply lookup_snoc.
  - do 2 eexists. split; [ by eapply s2x_device | ].
    cbn [heap set_heap]. by apply lookup_old.
Qed.

(** ** The sensitivity setter *)

Lemma set_sense_host P (prof : ndarray C) w :
  set_sense P (HostArr prof) w =
    if bool_decide (shape prof = multi_Nd P)
    then Ok tt (mk_world (heap w ++ [mk_ndarray (shape prof) complex64 (data prof)])
                  (GpuArr (length (heap w))) (to_device_calls w))
    else Raise ValueError w.
Proof.
  unfold set_sense, mbind, M_bind. cbn [shape_of].
  by case_bool_decide as Hne; case_bool_decide as Heq.
Qed.

(** C5 (as amended).  [set_sense(profile)] compares the shape of the profile
    with [multi_Nd], which is Nd for a plan made without [batch] and
    Nd + (batch,) for a plan made with [batch]: when the shapes differ the
    call raises ValueError and leaves the device, the stored profile
    included, as it was; when they agree the call succeeds and the stored
    profile becomes a new device array holding the given data. *)
Theorem set_sense_guards_multi_Nd wf (st : st_t C) ax barg (prof : ndarray C) w :
  let P := plan_attributes wf st ax barg in
  multi_Nd P = match barg with
               | None => st_Nd st
               | Some _ => st_Nd st ++ [batch P]
               end /\
  set_sense P (HostArr prof) w =
    if bool_decide (shape prof = multi_Nd P)
    then Ok tt (mk_world (heap w ++ [mk_ndarray (shape prof) complex64 (data prof)])
                  (GpuArr (length (heap w))) (to_device_calls w))
    else Raise ValueError w.
Proof.
  intros P. split; [ | apply set_sense_host ].
  unfold P. rewrite plan_multi_Nd, plan_batch. by destruct barg.
Qed.

Lemma plan_run wf (st : st_t C) ax barg h :
  let P := plan_attributes wf st ax barg in
  plan wf st ax barg h =
    (P, Ok tt (mk_world (h ++ [uniform_profile P]) (GpuArr (length h)) 0)).
Proof.
  intros P. unfold plan. fold P. f_equal. unfold offload.
  erewrite bind_ok by apply thr_array_fill_run.
  reflexivity.
Qed.

Lemma reset_sense_run c arr w :
  gpu_coil_profile w = GpuArr c ->
  heap w !! c = Some arr ->
  reset_sense w =
    Ok tt (set_heap (<[c := mk_ndarray (shape arr) (dtype arr)
                              (replicate (length (data arr)) cone)]> (heap w)) w).
Proof.
  intros Hc Ha. unfold reset_sense.
  step get_coil_run. rewrite Hc.
  erewrite bind_ok by (by apply fill_run).
  unfold set_heap. by rewrite Hc.
Qed.

Lemma sense_ok_plan wf (st : st_t C) ax barg h w :
  let P := plan_attributes wf st ax barg in
  (plan wf st ax barg h).2 = Ok tt w -> sense_ok P w.
Proof.
  intros P. rewrite plan_run. cbn [snd]. intros [= <-].
  exists (uniform_profile P). unfold coil_buffer. cbn [gpu_coil_profile heap].
  rewrite lookup_snoc. repeat split. cbn [data uniform_profile].
  apply length_replicate.
Qed.

Lemma sense_ok_set_sense P (prof : ndarray C) w w' :
  length (data prof) = prod_list (shape prof) ->
  set_sense P (HostArr prof) w = Ok tt w' -> sense_ok P w'.
Proof.
  intros Hwf. rewrite set_sense_host.
  case_bool_decide as Hs; [ | done ]. intros [= <-].
  eexists. unfold coil_buffer. cbn [gpu_coil_profile heap].
  rewrite lookup_snoc. repeat split; cbn [shape data]; congruence.
Qed.

(** C8.  When [plan] has completed, the stored coil profile is the uniform
    one (all ones, of shape [multi_Nd]); and in every later state of the
    instance, whatever profile is stored, [reset_sense] succeeds and makes
    the stored profile the uniform one again.  The later states are those
    in which the stored profile is a complex array of the planned shape,
    which [plan] establishes and every successful [set_sense] keeps. *)
Theorem uniform_profile_after_plan_and_reset wf (st : st_t C) ax barg :
  let P := plan_attributes wf st ax barg in
  (forall h, exists w,
     plan wf st ax barg h = (P, Ok tt w) /\
     coil_buffer w = Some (uniform_profile P) /\ sense_ok P w) /\
  (forall w, sense_ok P w ->
     exists w', reset_sense w = Ok tt w' /\
       coil_buffer w' = Some (uniform_profile P) /\ sense_ok P w') /\
  (forall (prof : ndarray C) w w',
     length (data prof) = prod_list (shape prof) ->
     set_sense P (HostArr prof) w = Ok tt w' ->
     coil_buffer w' = Some (mk_ndarray (shape prof) complex64 (data prof)) /\
     sense_ok P w').
Proof.
  intros P.
  assert (Hu : forall w, coil_buffer w = Some (uniform_profile P) -> sense_ok P w).
  { intros w Hw. exists (uniform_profile P). repeat split; [ done | ].
    apply length_replicate. }
  split; [ | split ].
  - intros h. eexists. split; [ apply plan_run | ].
    assert (Hb : coil_buffer (mk_world (h ++ [uniform_profile P]) (GpuArr (length h)) 0)
                 = Some (uniform_profile P)) by apply lookup_snoc.
    split; [ exact Hb | by apply Hu ].
  - intros w (arr & Hbuf & Hshape & Hdt & Hlen).
    unfold coil_buffer in Hbuf.
    destruct (gpu_coil_profile w) as [c| |] eqn:Hc; try done.
    eexists. split; [ by eapply reset_sense_run | ].
    assert (Hb : forall h', coil_buffer (set_heap h' w) = h' !! c).
    { intros h'. unfold coil_buffer, set_heap. cbn [gpu_coil_profile heap].
      by rewrite Hc. }
    assert (Hlt : c < length (heap w)) by (by eapply lookup_lt_Some).
    assert (Hnew : coil_buffer
              (set_heap (<[c := mk_ndarray (shape arr) (dtype arr)
                                   (replicate (length (data arr)) cone)]> (heap w)) w)
            = Some (uniform_profile P)).
    { rewrite Hb, list_lookup_insert_eq by exact Hlt.
      unfold uniform_profile. by rewrite Hshape, Hdt, Hlen. }
    split; [ exact Hnew | by apply Hu ].
  - intros prof w w' Hwf Hset.
    split; [ | by eapply sense_ok_set_sense ].
    rewrite set_sense_host in Hset.
    case_bool_decide; [ | done ]. injection Hset as <-.
    unfold coil_buffer. cbn [gpu_coil_profile heap]. apply lookup_snoc.
Qed.

(** ** The fallback cascade *)

Lemma adds_bind {A B} n (m : M C A) (f : A -> M C B) :
  adds_calls n m -> (forall r, adds_calls 0 (f r)) -> adds_calls n (m ≫= f).
Proof.
  intros Hm Hf w. specialize (Hm w). unfold mbind, M_bind.
  destruct (m w) as [r w1|e w1]; cbn [world_of] in *; [ | done ].
  by rewrite (Hf r w1).
Qed.

Lemma adds_try_except {A} n (body : M C A) handler :
  adds_calls n body -> (forall e, adds_calls 0 (handler e)) ->
  adds_calls n (try_except body handler).
Proof.
  intros Hm Hh w. specialize (Hm w). unfold try_except.
  destruct (body w) as [r w1|e w1]; cbn [world_of] in *; [ done | ].
  by rewrite (Hh e w1).
Qed.

Lemma keeps_ret {A} (r : A) : adds_calls 0 (mret r : M C A).
Proof. by intros w. Qed.

Lemma keeps_raise {A} e : adds_calls 0 (raise e : M C A).
Proof. by intros w. Qed.

Lemma keeps_alloc arr : adds_calls 0 (alloc arr).
Proof. by intros w. Qed.

Lemma keeps_store a arr : adds_calls 0 (store a arr).
Proof. by intros w. Qed.

Lemma keeps_get_coil : adds_calls 0 (get_coil (C := C)).
Proof. by intros w. Qed.

Lemma keeps_deref op v : adds_calls 0 (deref op v).
Proof. intros w. unfold deref. destruct v; [ | done | done ]. by destruct (heap w !! a). Qed.

Lemma keeps_shape_of v : adds_calls 0 (shape_of v).
Proof. intros w. unfold shape_of. destruct v; [ | done | done ]. by destruct (heap w !! a). Qed.

Lemma keeps_fmap {A B} (g : A -> B) (m : M C A) :
  adds_calls 0 m -> adds_calls 0 (g <$> m).
Proof.
  intros Hm w. specialize (Hm w). unfold fmap, M_fmap.
  by destruct (m w).
Qed.

Create HintDb calls.
#[local] Hint Resolve keeps_ret keeps_raise keeps_alloc keeps_store keeps_get_coil
  keeps_deref keeps_shape_of keeps_fmap : calls.

(** Decomposition of a method body into its monadic steps. *)
Ltac calls_steps :=
  repeat first
    [ progress auto with calls
    | apply (adds_bind 0); [ | intros [? ?] ]
    | apply (adds_bind 0); [ | intros ? ]
    | match goal with
      | |- adds_calls 0 (let '(_, _) := ?p in _) => destruct p
      | |- adds_calls 0 (match ?v with GpuArr _ => _ | HostArr _ => _ | PyObj => _ end) =>
          destruct v
      end ].

Lemma keeps_thr_array shp dt : adds_calls 0 (thr_array (C := C) shp dt).
Proof. unfold thr_array. calls_steps. Qed.

Lemma keeps_fill c v : adds_calls 0 (fill c v).
Proof. unfold fill. calls_steps. Qed.

Lemma keeps_launch_inplace op f v : adds_calls 0 (launch_inplace op f v).
Proof. unfold launch_inplace. calls_steps. Qed.

Lemma keeps_thr_copy_array x y : adds_calls 0 (thr_copy_array x y).
Proof. unfold thr_copy_array. calls_steps. Qed.

Lemma keeps_thr_to_device_dest x y : adds_calls 0 (thr_to_device_dest x y).
Proof. unfold thr_to_device_dest. calls_steps. Qed.

Lemma keeps_arr_scale c v : adds_calls 0 (arr_scale c v).
Proof. unfold arr_scale. calls_steps. Qed.

Lemma keeps_arr_add x y : adds_calls 0 (arr_add x y).
Proof. unfold arr_add. calls_steps. Qed.

#[local] Hint Resolve keeps_thr_array keeps_fill keeps_launch_inplace
  keeps_thr_copy_array keeps_thr_to_device_dest keeps_arr_scale keeps_arr_add : calls.

Lemma keeps_x2xx P v : adds_calls 0 (x2xx P v).
Proof. unfold x2xx. calls_steps. Qed.

Lemma keeps_xx2k P v : adds_calls 0 (xx2k P v).
Proof. unfold xx2k. calls_steps. Qed.

Lemma keeps_k2y P v : adds_calls 0 (k2y P v).
Proof. unfold k2y. calls_steps. Qed.

Lemma keeps_y2k P v : adds_calls 0 (y2k P v).
Proof. unfold y2k. calls_steps. Qed.

Lemma keeps_k2xx P v : adds_calls 0 (k2xx P v).
Proof. unfold k2xx. calls_steps. Qed.

Lemma keeps_xx2x P v : adds_calls 0 (xx2x P v).
Proof. unfold xx2x. calls_steps. Qed.

#[local] Hint Resolve keeps_x2xx keeps_xx2k keeps_k2y keeps_y2k keeps_k2xx
  keeps_xx2x : calls.

Lemma to_device_adds_one v : adds_calls 1 (to_device v).
Proof.
  intros w. unfold to_device.
  rewrite (bind_ok _ _ w tt
             (mk_world (heap w) (gpu_coil_profile w) (S (to_device_calls w))))
    by reflexivity.
  match goal with
  | |- to_device_calls (world_of (?m ?w1)) = _ =>
      assert (Hk : adds_calls 0 m) by calls_steps; by rewrite (Hk w1)
  end.
Qed.

Lemma after_fast_failure {A B} (fast inner : M C A) (rest : A -> M C B) w e1 w1 :
  fast w = Raise e1 w1 ->
  (try_except fast (fun _ => inner) ≫= rest) w = (inner ≫= rest) w1.
Proof.
  intros Hf. unfold mbind, M_bind, try_except. by rewrite Hf.
Qed.

(** C6 (as amended).  When the fast path of an entry point fails, the
    fallback is run once, in the state the failed attempt left: if it
    succeeds the pipeline continues from its result; if it fails in
    [adjoint] or [adjoint_many2one], the caller sees the exception of the
    fallback itself (the bare [raise] re-raises the exception being
    handled), not the one of the fast path.  In [forward] and [adjoint]
    such a call makes exactly one call of [self.to_device], whatever its
    outcome. *)
Theorem fallback_runs_once_and_surfaces_its_failure P e x w e1 w1 :
  fast_path P e x w = Raise e1 w1 ->
  (forall r w2,
     fallback_path P e x w1 = Ok r w2 ->
     run_entry P e x w = continuation P e r w2) /\
  (forall e2 w2,
     fallback_path P e x w1 = Raise e2 w2 ->
     e = Adjoint \/ e = Adjoint_many2one ->
     run_entry P e x w = Raise e2 w2) /\
  (e = Forward \/ e = Adjoint ->
     to_device_calls (world_of (run_entry P e x w)) = S (to_device_calls w)).
Proof.
  intros Hfast. split; [ | split ].
  - intros r w2 Hfb.
    destruct e; cbn [fast_path fallback_path run_entry continuation] in *;
      unfold forward, adjoint_many2one, adjoint, forward_one2many;
      rewrite (after_fast_failure _ _ _ _ _ _ Hfast);
      (erewrite bind_ok; [ reflexivity | ]);
      by apply try_except_ok.
  - intros e2 w2 Hfb [-> | ->];
      cbn [fast_path fallback_path run_entry continuation] in *;
      unfold adjoint_many2one, adjoint;
      rewrite (after_fast_failure _ _ _ _ _ _ Hfast);
      (erewrite bind_raise; [ reflexivity | ]);
      by rewrite (try_except_raise _ _ _ _ _ Hfb).
  - intros He.
    assert (to_device_calls w1 = to_device_calls w) as <-.
    { assert (Hk : adds_calls 0 (fast_path P e x))
        by (destruct He as [-> | ->]; cbn [fast_path]; auto with calls).
      specialize (Hk w). by rewrite Hfast in Hk. }
    destruct He as [-> | ->]; cbn [fast_path run_entry] in *;
      unfold forward, adjoint;
      rewrite (after_fast_failure _ _ _ _ _ _ Hfast);
      match goal with
      | |- to_device_calls (world_of (?m ?w0)) = _ =>
          assert (Hk : adds_calls 1 m); [ | by rewrite (Hk w0) ]
      end.
    + apply adds_bind; [ | intros; calls_steps ].
      apply adds_try_except.
      * apply adds_bind; [ apply to_device_adds_one | auto with calls ].
      * intros e. unfold unbound_name. calls_steps.
    + apply adds_bind; [ | intros; calls_steps ].
      apply adds_try_except.
      * apply adds_bind; [ apply to_device_adds_one | auto with calls ].
      * intros e. calls_steps.
Qed.

(** ** Host arrays and other objects at the entry points *)

Lemma to_device_host (hx : ndarray C) w :
  to_device (HostArr hx) w =
    Ok (GpuArr (length (heap w)))
       (mk_world (heap w ++ [mk_ndarray (shape hx) complex64 (data hx)])
          (gpu_coil_profile w) (S (to_device_calls w))).
Proof.
  unfold to_device.
  rewrite (bind_ok _ _ w tt
             (mk_world (heap w) (gpu_coil_profile w) (S (to_device_calls w))))
    by reflexivity.
  erewrite bind_ok by reflexivity.
  step thr_array_run.
  unfold thr_to_device_dest.
  erewrite bind_ok; last first.
  { erewrite bind_ok by (apply deref_run; apply lookup_snoc). reflexivity. }
  unfold set_heap, with_data.
  cbn [heap gpu_coil_profile to_device_calls data shape dtype].
  by rewrite insert_snoc.
Qed.

Lemma to_device_other w :
  to_device (C := C) PyObj w =
    Raise (AttributeError "shape")
      (mk_world (heap w) (gpu_coil_profile w) (S (to_device_calls w))).
Proof. reflexivity. Qed.

Lemma x2xx_host P (hx : ndarray C) w :
  x2xx P (HostArr hx) w =
    Raise (DeviceError "copy_array")
      (set_heap (heap w ++
         [mk_ndarray (shape hx) complex64 (uninitialised (prod_list (shape hx)))]) w).
Proof. reflexivity. Qed.

Lemma y2k_not_device P v w :
  (forall a, v ≠ GpuArr a) ->
  y2k P v w =
    Raise (DeviceError "pELL_spmvh_mCoil")
      (set_heap (heap w ++
         [mk_ndarray (multi_Kd P) float32 (replicate (prod_list (multi_Kd P)) czero);
          mk_ndarray (multi_Kd P) float32 (replicate (prod_list (multi_Kd P)) czero)]) w).
Proof.
  intros Hv. unfold y2k.
  step thr_array_fill_run. step thr_array_fill_run.
  rewrite <- app_assoc. simpl app.
  erewrite bind_raise; [ reflexivity | ].
  destruct v as [a| |]; [ by destruct (Hv a) | reflexivity | reflexivity ].
Qed.


Lemma bind_run_eq {A B} (m m' : M C A) (f : A -> M C B) w w' :
  m w = m' w' -> (m ≫= f) w = (m' ≫= f) w'.
Proof. intros Hm. unfold mbind, M_bind. by rewrite Hm. Qed.

Lemma forward_host_run P (hx : ndarray C) w :
  forward P (HostArr hx) w =
    Ok (GpuArr (length (heap w) + 4))
       (mk_world
          (heap w ++
             [mk_ndarray (shape hx) complex64 (uninitialised (prod_list (shape hx)));
              mk_ndarray (shape hx) complex64 (data hx)] ++
             forward_buffers P (mk_ndarray (shape hx) complex64 (data hx)))
          (gpu_coil_profile w) (S (to_device_calls w))).
Proof.
  unfold forward.
  rewrite (after_fast_failure _ _ _ _ _ _ (x2xx_host P hx w)).
  erewrite bind_ok; last first.
  { apply try_except_ok.
    erewrite bind_ok by apply to_device_host.
    apply x2xx_device. cbn [heap set_heap]. apply lookup_snoc. }
  step xx2k_device.
  erewrite k2y_device by heap_lookup.
  unfold set_heap, forward_buffers, k2y_data, xx2k_data, x2xx_data.
  cbn [heap gpu_coil_profile to_device_calls data shape dtype].
  rewrite !length_app. simpl length.
  rewrite <- !app_assoc. simpl app.
  by replace (length (heap w) + 1 + 1 + 1 + 1) with (length (heap w) + 4) by lia.
Qed.

(** X1.  [forward] on a host array: the fast attempt fails in
    [copy_array] after allocating one array of the input's shape (which
    is left as allocated, never written), the array
    is transferred once, and the pipeline then leaves exactly the buffers
    it leaves for a device array holding the same data. *)
Theorem forward_host_array P (hx : ndarray C) w :
  forward P (HostArr hx) w =
    Ok (GpuArr (length (heap w) + 4))
       (mk_world
          (heap w ++
             [mk_ndarray (shape hx) complex64 (uninitialised (prod_list (shape hx)));
              mk_ndarray (shape hx) complex64 (data hx)] ++
             forward_buffers P (mk_ndarray (shape hx) complex64 (data hx)))
          (gpu_coil_profile w) (S (to_device_calls w))).
Proof. apply forward_host_run. Qed.

Lemma adjoint_host_run P (hy : ndarray C) w :
  adjoint P (HostArr hy) w =
    Ok (GpuArr (length (heap w) + 8))
       (mk_world
          (heap w ++
             [mk_ndarray (multi_Kd P) float32 (replicate (prod_list (multi_Kd P)) czero);
              mk_ndarray (multi_Kd P) float32 (replicate (prod_list (multi_Kd P)) czero);
              mk_ndarray (shape hy) complex64 (data hy)] ++
             adjoint_buffers P (mk_ndarray (shape hy) complex64 (data hy)))
          (gpu_coil_profile w) (S (to_device_calls w))).
Proof.
  assert (Hfast := y2k_not_device P (HostArr hy) w ltac:(done)).
  assert (Hrest :
    forall a arr w0, heap w0 !! a = Some arr ->
      (k ← y2k P (GpuArr a); xx ← k2xx P k; xx2x P xx) w0 = adjoint P (GpuArr a) w0).
  { intros a arr w0 Ha. unfold adjoint.
    erewrite bind_ok by (by apply y2k_device).
    symmetry.
    erewrite bind_ok; [ reflexivity | apply try_except_ok; by apply y2k_device ]. }
  unfold adjoint at 1.
  rewrite (after_fast_failure _ _ _ _ _ _ Hfast).
  set (w1 := set_heap _ w).
  set (cp := mk_ndarray (shape hy) complex64 (data hy)).
  assert (Hfb :
    try_except (py ← to_device (HostArr hy); y2k P py) (fun e => raise e) w1 =
      y2k P (GpuArr (length (heap w1)))
        (mk_world (heap w1 ++ [cp]) (gpu_coil_profile w1) (S (to_device_calls w1)))).
  { unfold try_except.
    erewrite bind_ok by apply to_device_host.
    unfold cp.
    match goal with
    | |- match ?t with Ok _ _ => _ | Raise _ _ => _ end = _ =>
        destruct t; reflexivity
    end. }
  transitivity
    ((k ← y2k P (GpuArr (length (heap w1))); xx ← k2xx P k; xx2x P xx)
       (mk_world (heap w1 ++ [cp]) (gpu_coil_profile w1) (S (to_device_calls w1)))).
  { by apply bind_run_eq. }
  erewrite Hrest by apply lookup_snoc.
  erewrite adjoint_device by apply lookup_snoc.
  unfold set_heap, w1. cbn [heap gpu_coil_profile to_device_calls set_heap].
  rewrite !length_app. simpl length.
  rewrite <- !app_assoc. simpl app.
  by replace (length (heap w) + 2 + 1 + 5) with (length (heap w) + 8) by lia.
Qed.

(** X2.  [adjoint] on a host array: the fast attempt fails at the kernel
    launch after allocating the two zero-filled float32 accumulators, the
    array is transferred once, and the pipeline then leaves exactly the
    buffers it leaves for a device array holding the same data. *)
Theorem adjoint_host_array P (hy : ndarray C) w :
  adjoint P (HostArr hy) w =
    Ok (GpuArr (length (heap w) + 8))
       (mk_world
          (heap w ++
             [mk_ndarray (multi_Kd P) float32 (replicate (prod_list (multi_Kd P)) czero);
              mk_ndarray (multi_Kd P) float32 (replicate (prod_list (multi_Kd P)) czero);
              mk_ndarray (shape hy) complex64 (data hy)] ++
             adjoint_buffers P (mk_ndarray (shape hy) complex64 (data hy)))
          (gpu_coil_profile w) (S (to_device_calls w))).
Proof. apply adjoint_host_run. Qed.

(** X3.  When both attempts of [forward] fail, the caller sees neither
    failure: the handler of the fallback evaluates the name [gxx], which is
    bound nowhere, before it reaches its [raise], so [forward] raises
    NameError for [gxx] whatever the two failures were.  The device is
    left as the failed fallback left it. *)
Theorem forward_fails_with_NameError P x w e1 w1 e2 w2 :
  x2xx P x w = Raise e1 w1 ->
  (px ← to_device x; x2xx P px) w1 = Raise e2 w2 ->
  forward P x w = Raise (NameError "gxx") w2.
Proof.
  intros Hfast Hfb. unfold forward.
  rewrite (after_fast_failure _ _ _ _ _ _ Hfast).
  apply bind_raise.
  by rewrite (try_except_raise _ _ _ _ _ Hfb).
Qed.

(** X4.  [adjoint] on an object of another kind than an array, such as a
    list ([None] is not such an object, see [pyval]): the kernel launch of
    the fast attempt fails after the two accumulators have been allocated
    and filled with zeros, [self.to_device] is called once and fails on
    the missing [shape], and this AttributeError is what the caller
    sees. *)
Theorem adjoint_other_object P w :
  adjoint P PyObj w =
    Raise (AttributeError "shape")
      (mk_world
         (heap w ++
            [mk_ndarray (multi_Kd P) float32 (replicate (prod_list (multi_Kd P)) czero);
             mk_ndarray (multi_Kd P) float32 (replicate (prod_list (multi_Kd P)) czero)])
         (gpu_coil_profile w) (S (to_device_calls w))).
Proof.
  assert (Hfast := y2k_not_device P PyObj w ltac:(done)).
  unfold adjoint. rewrite (after_fast_failure _ _ _ _ _ _ Hfast).
  reflexivity.
Qed.

(** ** Device-resident arguments: what the calls leave alone *)

Lemma quiet_refl w : quiet w w.
Proof. by repeat split. Qed.

Lemma quiet_trans w1 w2 w3 : quiet w1 w2 -> quiet w2 w3 -> quiet w1 w3.
Proof.
  intros (Hh & Hc & Hn) (Hh' & Hc' & Hn'). repeat split; [ | congruence | congruence ].
  intros a arr Ha. by apply Hh', Hh.
Qed.

Lemma quiet_grow w ext : quiet w (set_heap (heap w ++ ext) w).
Proof.
  repeat split. intros a arr Ha. cbn [heap set_heap]. by apply lookup_app_l_Some.
Qed.

Lemma quiet_coil_buffer w w' arr :
  quiet w w' -> coil_buffer w = Some arr -> coil_buffer w' = Some arr.
Proof.
  intros (Hh & Hc & _). unfold coil_buffer. rewrite Hc.
  destruct (gpu_coil_profile w); [ apply Hh | done | done ].
Qed.

Lemma quiet_sense_ok P w w' : quiet w w' -> sense_ok P w -> sense_ok P w'.
Proof.
  intros Hq (arr & Hb & Hrest). exists arr. split; [ | exact Hrest ].
  by eapply quiet_coil_buffer.
Qed.

(** X5.  On a device-resident argument [forward] and [adjoint] return
    without calling [self.to_device] and without touching any buffer that
    existed before, the stored coil profile in particular: the profile
    handle and its contents are the same afterwards. *)
Theorem forward_adjoint_quiet P a arr w :
  heap w !! a = Some arr ->
  (exists r w', forward P (GpuArr a) w = Ok r w' /\ quiet w w' /\
     (forall parr, coil_buffer w = Some parr -> coil_buffer w' = Some parr) /\
     (sense_ok P w -> sense_ok P w')) /\
  (exists r w', adjoint P (GpuArr a) w = Ok r w' /\ quiet w w' /\
     (forall parr, coil_buffer w = Some parr -> coil_buffer w' = Some parr) /\
     (sense_ok P w -> sense_ok P w')).
Proof.
  intros Ha.
  split; do 2 eexists.
  - split; [ by apply forward_device | ].
    split; [ apply quiet_grow | ].
    split; [ intros parr | ]; [ apply quiet_coil_buffer | apply quiet_sense_ok ];
      apply quiet_grow.
  - split; [ by apply adjoint_device | ].
    split; [ apply quiet_grow | ].
    split; [ intros parr | ]; [ apply quiet_coil_buffer | apply quiet_sense_ok ];
      apply quiet_grow.
Qed.

Lemma forward_one2many_device P a arr c parr w :
  heap w !! a = Some arr ->
  gpu_coil_profile w = GpuArr c ->
  heap w !! c = Some parr ->
  let x := mk_ndarray (multi_Nd P) complex64 (s2x_data P (data parr) (data arr)) in
  forward_one2many P (GpuArr a) w =
    Ok (GpuArr (length (heap w) + 3))
       (set_heap (heap w ++ x :: forward_buffers P x) w).
Proof.
  intros Ha Hc Hp x. unfold forward_one2many.
  erewrite bind_ok; [ | apply try_except_ok; by eapply s2x_device ].
  erewrite forward_device by (cbn [heap set_heap]; apply lookup_snoc).
  unfold set_heap. cbn [heap gpu_coil_profile to_device_calls].
  rewrite length_app. simpl length.
  rewrite <- app_assoc. simpl app.
  by replace (length (heap w) + 1 + 2) with (length (heap w) + 3) by lia.
Qed.

Lemma adjoint_many2one_device P a arr c parr w :
  heap w !! a = Some arr ->
  gpu_coil_profile w = GpuArr c ->
  heap w !! c = Some parr ->
  let d := xx2x_data P (k2xx_data P (y2k_data P (data arr))) in
  adjoint_many2one P (GpuArr a) w =
    Ok (GpuArr (length (heap w) + 6))
       (set_heap
          (heap w ++
             <[5 := mk_ndarray (multi_Nd P) complex64 (x2s_weighted P (data parr) d)]>
               (adjoint_buffers P arr) ++
             [mk_ndarray (Nd P) complex64 (x2s_data P (data parr) d)]) w).
Proof.
  intros Ha Hc Hp d. unfold adjoint_many2one.
  erewrite bind_ok; [ | apply try_except_ok; by apply adjoint_device ].
  erewrite x2s_device; cycle 1.
  - cbn [heap set_heap]. by rewrite lookup_app_add.
  - exact Hc.
  - cbn [heap set_heap]. by apply lookup_app_l_Some.
  - unfold set_heap. cbn [heap gpu_coil_profile to_device_calls shape dtype data].
    rewrite insert_app_r, length_app. simpl length.
    by rewrite <- app_assoc.
Qed.

(** X6.  The multi-channel entry points on a device-resident argument,
    with the stored profile in place: [forward_one2many] is [forward] of
    [s2x] and returns an array of shape [multi_M]; [adjoint_many2one] is
    [x2s] of [adjoint] and returns an array of shape Nd, without the
    channel axis.  Neither calls [self.to_device] nor writes to a buffer
    that existed before the call. *)
Theorem multichannel_on_device P a arr c parr w :
  heap w !! a = Some arr ->
  gpu_coil_profile w = GpuArr c ->
  heap w !! c = Some parr ->
  (exists r w' yarr,
     forward_one2many P (GpuArr a) w = Ok (GpuArr r) w' /\
     forward_one2many P (GpuArr a) w = (x ← s2x P (GpuArr a); forward P x) w /\
     heap w' !! r = Some yarr /\ shape yarr = multi_M P /\ quiet w w') /\
  (exists r w' sarr,
     adjoint_many2one P (GpuArr a) w = Ok (GpuArr r) w' /\
     adjoint_many2one P (GpuArr a) w = (x ← adjoint P (GpuArr a); x2s P x) w /\
     heap w' !! r = Some sarr /\ shape sarr = Nd P /\ quiet w w').
Proof.
  intros Ha Hc Hp. split.
  - do 3 eexists. split; [ by eapply forward_one2many_device | ].
    split.
    { unfold forward_one2many.
      erewrite bind_ok; [ | apply try_except_ok; by eapply s2x_device ].
      symmetry. erewrite bind_ok; [ reflexivity | by eapply s2x_device ]. }
    cbn [heap set_heap]. rewrite lookup_app_add.
    split; [ reflexivity | ]. split; [ reflexivity | apply quiet_grow ].
  - do 3 eexists. split; [ by eapply adjoint_many2one_device | ].
    split.
    { unfold adjoint_many2one.
      erewrite bind_ok; [ | apply try_except_ok; by apply adjoint_device ].
      symmetry. erewrite bind_ok; [ reflexivity | by apply adjoint_device ]. }
    cbn [heap set_heap]. rewrite lookup_app_add.
    split; [ reflexivity | ]. split; [ reflexivity | apply quiet_grow ].
Qed.

(** X7.  The two normal-operator compositions on a device-resident image:
    [selfadjoint] returns an array of shape [multi_Nd] holding the six
    stage transforms of the image in pipeline order, and
    [selfadjoint_one2many2one] (with the stored profile in place) returns
    an array of shape Nd.  Neither calls [self.to_device] nor writes to a
    buffer that existed before the call, the image included. *)
Theorem selfadjoint_on_device P a arr w :
  heap w !! a = Some arr ->
  (exists r w' xarr,
     selfadjoint P (GpuArr a) w = Ok (GpuArr r) w' /\
     heap w' !! r = Some xarr /\
     xarr = mk_ndarray (multi_Nd P) complex64
              (xx2x_data P (k2xx_data P (y2k_data P
                 (k2y_data P (xx2k_data P (x2xx_data P (data arr))))))) /\
     quiet w w') /\
  (forall c parr,
     gpu_coil_profile w = GpuArr c -> heap w !! c = Some parr ->
     exists r w' sarr,
       selfadjoint_one2many2one P (GpuArr a) w = Ok (GpuArr r) w' /\
       heap w' !! r = Some sarr /\ shape sarr = Nd P /\ quiet w w').
Proof.
  intros Ha. split.
  - do 3 eexists. split.
    { unfold selfadjoint.
      erewrite bind_ok by (by apply forward_device).
      apply adjoint_device. cbn [heap set_heap]. by rewrite lookup_app_add. }
    cbn [heap set_heap]. rewrite lookup_app_add.
    split; [ reflexivity | ]. split; [ reflexivity | ].
    eapply quiet_trans; [ apply quiet_grow | ].
    apply (quiet_grow (set_heap _ w)).
  - intros c parr Hc Hp. do 3 eexists. split.
    { unfold selfadjoint_one2many2one.
      erewrite bind_ok by (by eapply forward_one2many_device).
      eapply adjoint_many2one_device.
      - cbn [heap set_heap]. by rewrite lookup_app_add.
      - exact Hc.
      - cbn [heap set_heap]. by apply lookup_app_l_Some. }
    cbn [heap set_heap]. rewrite lookup_app_add.
    split; [ reflexivity | ]. split; [ reflexivity | ].
    eapply quiet_trans; [ apply quiet_grow | ].
    apply (quiet_grow (set_heap _ w)).
Qed.

Lemma lookup_snoc_insert h i arr arr' :
  (<[i := arr']> h ++ [arr]) !! length h = Some arr.
Proof.
  assert (Hlen : length (<[i := arr']> h) = length h) by apply length_insert.
  rewrite <- Hlen. apply lookup_snoc.
Qed.

Lemma s2x_host P (hs : ndarray C) w :
  s2x P (HostArr hs) w =
    Raise (DeviceError "cPopulate")
      (set_heap (heap w ++
         [mk_ndarray (multi_Nd P) complex64
            (uninitialised (prod_list (multi_Nd P)))]) w).
Proof. reflexivity. Qed.

(** X8.  The multi-channel entry points on a host array, with the stored
    profile in place: both return what they return for a device array
    holding the same data, after exactly one call of [self.to_device], and
    no buffer that existed before the call is written.  In
    [adjoint_many2one] the transfer is the one made inside [adjoint]; its
    own fallback is not entered. *)
Theorem multichannel_host_array P (hx : ndarray C) c parr w :
  gpu_coil_profile w = GpuArr c ->
  heap w !! c = Some parr ->
  (exists r w',
     forward_one2many P (HostArr hx) w = Ok (GpuArr r) w' /\
     heap w' !! r =
       Some (mk_ndarray (multi_M P) complex64
               (k2y_data P (xx2k_data P (x2xx_data P
                  (s2x_data P (data parr) (data hx)))))) /\
     to_device_calls w' = S (to_device_calls w) /\
     gpu_coil_profile w' = gpu_coil_profile w /\
     forall a arr, heap w !! a = Some arr -> heap w' !! a = Some arr) /\
  (exists r w',
     adjoint_many2one P (HostArr hx) w = Ok (GpuArr r) w' /\
     adjoint_many2one P (HostArr hx) w = (x ← adjoint P (HostArr hx); x2s P x) w /\
     heap w' !! r =
       Some (mk_ndarray (Nd P) complex64
               (x2s_data P (data parr)
                  (xx2x_data P (k2xx_data P (y2k_data P (data hx)))))) /\
     to_device_calls w' = S (to_device_calls w) /\
     gpu_coil_profile w' = gpu_coil_profile w /\
     forall a arr, heap w !! a = Some arr -> heap w' !! a = Some arr).
Proof.
  intros Hc Hp. split.
  - do 2 eexists. split.
    { unfold forward_one2many.
      rewrite (after_fast_failure _ _ _ _ _ _ (s2x_host P hx w)).
      erewrite bind_ok; last first.
      { apply try_except_ok.
        erewrite bind_ok by apply to_device_host.
        eapply s2x_device; cbn [heap set_heap gpu_coil_profile].
        - apply lookup_snoc.
        - exact Hc.
        - by apply lookup_old, lookup_old. }
      apply forward_device. cbn [heap set_heap]. apply lookup_snoc. }
    cbn [heap set_heap gpu_coil_profile to_device_calls].
    rewrite lookup_app_add.
    split; [ reflexivity | ]. split; [ reflexivity | ]. split; [ reflexivity | ].
    intros a arr Ha. by apply lookup_app_l_Some, lookup_old, lookup_old, lookup_old.
  - do 2 eexists.
    split.
    { unfold adjoint_many2one.
      erewrite bind_ok; [ | apply try_except_ok; apply adjoint_host_run ].
      eapply x2s_device; cbn [heap gpu_coil_profile].
      - by rewrite lookup_app_add.
      - exact Hc.
      - by apply lookup_app_l_Some. }
    split.
    { unfold adjoint_many2one.
      erewrite bind_ok; [ | apply try_except_ok; apply adjoint_host_run ].
      symmetry. erewrite bind_ok; [ reflexivity | apply adjoint_host_run ]. }
    cbn [heap set_heap gpu_coil_profile to_device_calls].
    rewrite lookup_snoc_insert.
    split; [ reflexivity | ]. split; [ reflexivity | ]. split; [ reflexivity | ].
    intros a arr Ha.
    assert (Hlt : a < length (heap w)) by (by eapply lookup_lt_Some).
    apply lookup_app_l_Some.
    rewrite list_lookup_insert_ne by lia.
    by apply lookup_app_l_Some.
Qed.

(** ** The sensitivity methods on any argument *)

(** X9.  A failed [set_sense] changes nothing: whatever the argument, if
    the call raises, the device memory and the stored profile are exactly
    as before.  An object without [shape] gives AttributeError, and
    ValueError is raised only for an argument that has a shape different
    from [multi_Nd]. *)
Theorem set_sense_failure_changes_nothing P v w e w' :
  set_sense P v w = Raise e w' ->
  w' = w /\
  (v = PyObj -> e = AttributeError "shape") /\
  (e = ValueError -> exists shp, shape_of v w = Ok shp w /\ shp ≠ multi_Nd P).
Proof.
  unfold set_sense, mbind, M_bind. intros Hs.
  destruct (shape_of v w) as [shp w1|e1 w1] eqn:Hshape.
  - assert (w1 = w) as ->.
    { unfold shape_of in Hshape. destruct v as [a|hx|]; [ | congruence | done ].
      destruct (heap w !! a); congruence. }
    case_bool_decide as Hne.
    + injection Hs as <- <-. repeat split; [ | by exists shp ].
      intros ->. discriminate Hshape.
    + destruct v as [a|hx|]; [ | discriminate Hs | discriminate Hshape ].
      injection Hs as <- <-. repeat split; discriminate.
  - injection Hs as <- <-.
    unfold shape_of in Hshape. destruct v as [a|hx|]; [ | discriminate | ].
    + destruct (heap w !! a); [ discriminate | ].
      injection Hshape as <- <-. repeat split; discriminate.
    + injection Hshape as <- <-. repeat split; discriminate.
Qed.

(** X10.  [reset_sense] writes the stored profile in place and nothing
    else: it allocates no buffer, keeps the profile handle, leaves every
    other buffer as it was, and calling it a second time changes nothing
    any more. *)
Theorem reset_sense_in_place_idempotent c arr w :
  gpu_coil_profile w = GpuArr c ->
  heap w !! c = Some arr ->
  exists w1,
    reset_sense w = Ok tt w1 /\
    reset_sense w1 = Ok tt w1 /\
    heap w1 !! c =
      Some (mk_ndarray (shape arr) (dtype arr) (replicate (length (data arr)) cone)) /\
    (forall a, a ≠ c -> heap w1 !! a = heap w !! a) /\
    length (heap w1) = length (heap w) /\
    gpu_coil_profile w1 = GpuArr c /\
    to_device_calls w1 = to_device_calls w.
Proof.
  intros Hc Ha.
  assert (Hlt : c < length (heap w)) by (by eapply lookup_lt_Some).
  set (ones := mk_ndarray (shape arr) (dtype arr) (replicate (length (data arr)) cone)).
  exists (set_heap (<[c := ones]> (heap w)) w).
  assert (Hnew : heap (set_heap (<[c := ones]> (heap w)) w) !! c = Some ones)
    by (by apply list_lookup_insert_eq).
  split; [ by apply reset_sense_run | ].
  split.
  { erewrite reset_sense_run; [ | exact Hc | exact Hnew ].
    cbn [heap set_heap shape dtype data ones].
    rewrite length_replicate. fold ones.
    rewrite list_insert_insert_eq. reflexivity. }
  split; [ exact Hnew | ].
  split; [ intros a Hne; cbn [heap set_heap]; by apply list_lookup_insert_ne | ].
  split; [ apply length_insert | ].
  by split.
Qed.

(** ** Which stage writes to its argument *)

(** X11.  [k2xx] transforms the grid it is given in place: after the call
    the argument holds the inverse transform of what it held, and the
    cropped image is a different, new array.  [xx2k], [k2y] and [y2k]
    leave their argument as it was. *)
Theorem k2xx_overwrites_its_argument P a arr w :
  heap w !! a = Some arr ->
  (exists r w',
     k2xx P (GpuArr a) w = Ok (GpuArr r) w' /\
     r ≠ a /\
     heap w' !! a =
       Some (mk_ndarray (shape arr) (dtype arr)
               (fft_exec true (fft_shape P) (ft_axes P) (data arr))) /\
     heap w' !! r = Some (mk_ndarray (multi_Nd P) complex64 (k2xx_data P (data arr))) /\
     forall a' arr', a' ≠ a -> heap w !! a' = Some arr' -> heap w' !! a' = Some arr') /\
  (exists r w', xx2k P (GpuArr a) w = Ok r w' /\ quiet w w') /\
  (exists r w', k2y P (GpuArr a) w = Ok r w' /\ quiet w w') /\
  (exists r w', y2k P (GpuArr a) w = Ok r w' /\ quiet w w').
Proof.
  intros Ha.
  assert (Hlt : a < length (heap w)) by (by eapply lookup_lt_Some).
  split; [ | split; [ | split ] ].
  - do 2 eexists. split; [ by apply k2xx_device | ].
    cbn [heap set_heap]. split; [ lia | ]. split.
    { apply lookup_app_l_Some. by apply list_lookup_insert_eq. }
    split; [ apply lookup_snoc_insert | ].
    intros a' arr' Hne Ha'. apply lookup_app_l_Some.
    by rewrite list_lookup_insert_ne.
  - do 2 eexists. split; [ by apply xx2k_device | apply quiet_grow ].
  - do 2 eexists. split; [ by apply k2y_device | apply quiet_grow ].
  - do 2 eexists. split; [ by apply y2k_device | apply quiet_grow ].
Qed.

(** ** Sizes fixed by [plan] *)

Lemma prod_list_snoc l n : prod_list (l ++ [n]) = prod_list l * n.
Proof.
  unfold prod_list. induction l as [|m l IH]; simpl; [ lia | ].
  rewrite IH. lia.
Qed.

(** X12.  The shapes that [plan] derives agree with the launch sizes used
    by the stages as long as the products fit the 32-bit attributes that
    hold them: with prod(Nd) below 2^31 an array of shape [multi_Nd] has
    batch * Ndprod elements, with prod(Kd) below 2^31 one of shape
    [multi_Kd] has batch * Kdprod, with M below 2^31 one of shape [multi_M]
    has M * batch.  At prod(Nd) = 2^32 the attribute has wrapped to 0.
    Unless the batch count is 0, the shape the transform is compiled for
    has as many elements as [multi_Kd], although for an explicit
    [batch = 1] the two shapes differ (Kd against Kd + (1,)). *)
Theorem plan_sizes wf (st : st_t C) ax barg :
  let P := plan_attributes wf st ax barg in
  (prod_list (st_Nd st) < 2 ^ 31 -> prod_list (multi_Nd P) = batch P * Ndprod P) /\
  (prod_list (st_Kd st) < 2 ^ 31 -> prod_list (multi_Kd P) = batch P * Kdprod P) /\
  (st_M st < 2 ^ 31 -> prod_list (multi_M P) = M_samples P * batch P) /\
  (prod_list (st_Nd st) = 2 ^ 32 -> Ndprod P = 0) /\
  (batch P ≠ 0 -> prod_list (fft_shape P) = prod_list (multi_Kd P)) /\
  (barg = Some 1 -> fft_shape P = st_Kd st /\ multi_Kd P = st_Kd st ++ [1]).
Proof.
  intros P.
  assert (HKd : multi_Kd P =
            match barg with None => st_Kd st | Some n => st_Kd st ++ [uint32 n] end).
  { destruct barg as [n|]; [ | reflexivity ].
    unfold P, plan_attributes. cbn [multi_Kd].
    replace (bool_decide (1 = 0)) with false by reflexivity.
    by rewrite andb_false_r. }
  assert (Hfft : fft_shape P =
            if bool_decide (1 < batch P) then st_Kd st ++ [batch P] else st_Kd st)
    by reflexivity.
  assert (HNp : Ndprod P = Z.to_nat (int32 (prod_list (st_Nd st)))) by reflexivity.
  assert (HKp : Kdprod P = Z.to_nat (int32 (prod_list (st_Kd st)))) by reflexivity.
  assert (HMp : M_samples P = Z.to_nat (int32 (st_M st))) by reflexivity.
  assert (Hb := plan_batch wf st ax barg). fold P in Hb.
  split; [ | split; [ | split; [ | split; [ | split ] ] ] ].
  - intros Hlt. unfold P at 1. rewrite plan_multi_Nd, Hb, HNp, (int32_small _ Hlt).
    destruct barg; [ rewrite prod_list_snoc | ]; lia.
  - intros Hlt. rewrite HKd, Hb, HKp, (int32_small _ Hlt).
    destruct barg; [ rewrite prod_list_snoc | ]; lia.
  - intros Hlt. rewrite HMp, (int32_small _ Hlt). apply plan_multi_M_size.
  - intros Heq. rewrite HNp, Heq. unfold int32. rewrite of_nat_pow2. reflexivity.
  - intros Hne. rewrite Hfft, HKd.
    case_bool_decide as Hgt.
    + destruct barg as [n|]; [ by rewrite Hb | rewrite Hb in Hgt; lia ].
    + destruct barg as [n|]; [ | reflexivity ].
      rewrite prod_list_snoc. rewrite Hb in Hgt, Hne.
      assert (uint32 n = 1) as -> by lia. lia.
  - intros ->. split; reflexivity.
Qed.

(** ** Transfers *)

(** X13.  [to_device] on a host array returns a new device array of the
    same shape, as complex64, holding the host data, and leaves every
    existing buffer and the stored profile as they were; on an object that
    is no array it raises AttributeError for [shape] before anything is
    allocated. *)
Theorem to_device_transfers (hx : ndarray C) w :
  (exists r w',
     to_device (HostArr hx) w = Ok (GpuArr r) w' /\
     heap w !! r = None /\
     heap w' !! r = Some (mk_ndarray (shape hx) complex64 (data hx)) /\
     length (heap w') = S (length (heap w)) /\
     (forall a arr, heap w !! a = Some arr -> heap w' !! a = Some arr) /\
     gpu_coil_profile w' = gpu_coil_profile w) /\
  (exists w',
     to_device (C := C) PyObj w = Raise (AttributeError "shape") w' /\
     heap w' = heap w /\ gpu_coil_profile w' = gpu_coil_profile w).
Proof.
  split.
  - do 2 eexists. split; [ apply to_device_host | ].
    cbn [heap gpu_coil_profile]. repeat split.
    + by apply lookup_ge_None_2.
    + apply lookup_snoc.
    + rewrite length_app. simpl. lia.
    + intros a arr Ha. by apply lookup_old.
  - eexists. split; [ apply to_device_other | ]. by split.
Qed.

(** ** Failures of [forward_one2many] *)

(** What [s2x] does on a live device array: it returns a new live array,
    or fails at the multiplication by the stored profile. *)
Lemma s2x_on_live P a arr w :
  heap w !! a = Some arr ->
  (exists r arr' w', s2x P (GpuArr a) w = Ok (GpuArr r) w' /\ heap w' !! r = Some arr') \/
  (exists w',
     s2x P (GpuArr a) w = Raise (DeviceError "cMultiplyVecInplace") w' /\
     coil_buffer w = None /\
     to_device_calls w' = to_device_calls w /\
     forall a0 arr0, heap w !! a0 = Some arr0 -> heap w' !! a0 = Some arr0).
Proof.
  intros Ha. unfold s2x.
  step thr_array_run. step deref_run. step launch_inplace_run.
  step get_coil_run.
  match goal with
  | |- context [mk_world (heap w ++ [?z]) _ _] => set (x := z)
  end.
  destruct (gpu_coil_profile w) as [c|hp|] eqn:Hc.
  - destruct ((heap w ++ [x]) !! c) as [parr|] eqn:Hp.
    + left. do 3 eexists. split.
      * step deref_run. step launch_inplace_run. reflexivity.
      * cbn [heap]. apply lookup_snoc.
    + right. eexists. split; [ | split; [ | split ] ].
      * apply bind_raise. unfold deref. cbn [heap]. by rewrite Hp.
      * unfold coil_buffer. rewrite Hc.
        destruct (heap w !! c) as [parr|] eqn:Hp0; [ | done ].
        by rewrite (lookup_old _ x _ _ Hp0) in Hp.
      * reflexivity.
      * intros a0 arr0 Ha0. cbn [heap]. by apply lookup_old.
  - right. eexists. split; [ | split; [ | split ] ].
    + apply bind_raise. reflexivity.
    + unfold coil_buffer. by rewrite Hc.
    + reflexivity.
    + intros a0 arr0 Ha0. cbn [heap]. by apply lookup_old.
  - right. eexists. split; [ | split; [ | split ] ].
    + apply bind_raise. reflexivity.
    + unfold coil_buffer. by rewrite Hc.
    + reflexivity.
    + intros a0 arr0 Ha0. cbn [heap]. by apply lookup_old.
Qed.


(** X22.  What the caller of [forward_one2many] sees when it fails.  An
    object without [shape] gives AttributeError, raised by the handler of
    the fallback itself when it reads [s.shape].  An argument that has a
    shape different from Nd gives UnboundLocalError for [x], which the
    handler reads to print it; only for an argument of shape Nd does the
    failure of the fallback reach the caller.  On a host array the call
    fails only if the stored profile is not a live device array, after one
    call of [self.to_device]. *)
Theorem forward_one2many_failure P s w e w' :
  forward_one2many P s w = Raise e w' ->
  (s = PyObj -> e = AttributeError "shape") /\
  (forall shp, shape_of s w = Ok shp w -> shp ≠ Nd P -> e = UnboundLocalError "x") /\
  (forall hx, s = HostArr hx ->
     coil_buffer w = None /\
     to_device_calls w' = S (to_device_calls w) /\
     (shape hx = Nd P -> e = DeviceError "cMultiplyVecInplace")).
Proof.
  intros Hf. destruct s as [a|hx|].
  - (* a device array *)
    split; [ done | ]. split; [ | done ].
    intros shp Hshape Hne.
    destruct (heap w !! a) as [arr|] eqn:Ha;
      [ | unfold shape_of in Hshape; rewrite Ha in Hshape; discriminate ].
    rewrite (shape_of_run a arr w Ha) in Hshape. injection Hshape as <-.
    unfold forward_one2many in Hf.
    destruct (s2x_on_live P a arr w Ha)
      as [(r & arr' & w1 & Hrun & Hr)|(w1 & Hrun & _ & _ & Hold)].
    + erewrite bind_ok in Hf by (apply try_except_ok; exact Hrun).
      rewrite (forward_device P r arr' w1 Hr) in Hf. discriminate.
    + rewrite (after_fast_failure _ _ _ _ _ _ Hrun) in Hf.
      assert (Ha1 : heap w1 !! a = Some arr) by (by apply Hold).
      assert (Hfb :
        (ps ← to_device (GpuArr a); s2x P ps) w1 =
          Raise (DeviceError "to_device")
            (mk_world
               (heap w1 ++ [mk_ndarray (shape arr) complex64
                              (uninitialised (prod_list (shape arr)))])
               (gpu_coil_profile w1) (S (to_device_calls w1)))).
      { apply bind_raise. unfold to_device.
        erewrite bind_ok by reflexivity.
        erewrite bind_ok by (apply shape_of_run; cbn [heap]; exact Ha1).
        erewrite bind_ok by apply thr_array_run.
        reflexivity. }
      erewrite bind_raise in Hf; last first.
      { erewrite try_except_raise by exact Hfb.
        erewrite bind_ok by (apply shape_of_run; cbn [heap]; by apply lookup_old).
        rewrite bool_decide_eq_true_2 by exact Hne. reflexivity. }
      by injection Hf as <- _.
  - (* a host array *)
    unfold forward_one2many in Hf.
    rewrite (after_fast_failure _ _ _ _ _ _ (s2x_host P hx w)) in Hf.
    set (w1 := set_heap _ w) in Hf.
    set (w2 := mk_world (heap w1 ++ [mk_ndarray (shape hx) complex64 (data hx)])
                 (gpu_coil_profile w1) (S (to_device_calls w1))).
    assert (Hlive : heap w2 !! length (heap w1) = Some (mk_ndarray (shape hx) complex64 (data hx)))
      by apply lookup_snoc.
    destruct (s2x_on_live P _ _ w2 Hlive)
      as [(r & arr' & w3 & Hrun & Hr)|(w3 & Hrun & Hcoil & Hcalls & _)].
    + erewrite bind_ok in Hf; last first.
      { apply try_except_ok. erewrite bind_ok by apply to_device_host. exact Hrun. }
      rewrite (forward_device P r arr' w3 Hr) in Hf. discriminate.
    + assert (Hcoil0 : coil_buffer w = None).
      { unfold coil_buffer in *. cbn [gpu_coil_profile heap w2 w1 set_heap] in Hcoil.
        destruct (gpu_coil_profile w) as [c| |]; [ | done | done ].
        destruct (heap w !! c) as [parr|] eqn:Hp; [ | done ].
        by rewrite (lookup_old _ _ _ _ (lookup_old _ _ _ _ Hp)) in Hcoil. }
      assert (Hfb :
        (ps ← to_device (HostArr hx); s2x P ps) w1 =
          Raise (DeviceError "cMultiplyVecInplace") w3).
      { erewrite bind_ok by apply to_device_host. exact Hrun. }
      split; [ done | ]. split.
      * intros shp [= <-] Hne.
        erewrite bind_raise in Hf; last first.
        { erewrite try_except_raise by exact Hfb.
          erewrite bind_ok by reflexivity.
          rewrite bool_decide_eq_true_2 by exact Hne. reflexivity. }
        by injection Hf as <- _.
      * intros hx' [= <-]. split; [ exact Hcoil0 | ].
        destruct (decide (shape hx = Nd P)) as [Heq|Hne].
        -- erewrite bind_raise in Hf; last first.
           { erewrite try_except_raise by exact Hfb.
             erewrite bind_ok by reflexivity.
             rewrite bool_decide_eq_false_2 by (by intros Hn; apply Hn).
             reflexivity. }
           injection Hf as <- <-. split; [ exact Hcalls | done ].
        -- erewrite bind_raise in Hf; last first.
           { erewrite try_except_raise by exact Hfb.
             erewrite bind_ok by reflexivity.
             rewrite bool_decide_eq_true_2 by exact Hne. reflexivity. }
           injection Hf as _ <-. split; [ exact Hcalls | done ].
  - (* no array *)
    split; [ | split; [ | done ] ].
    + intros _. by injection Hf as <- _.
    + intros shp Hshape. discriminate Hshape.
Qed.

End Properties.

(** * The accumulation order of the scatter *)

Section AccumulationOrder.
Context {C : Type} {SC : Scalar C}.
Implicit Types (K : Kernels C) (ord : nat -> list nat) (P : plan_t C) (w : world C).

Lemma foldl_permutation {A B} (f : B -> A -> B) (l1 l2 : list A) :
  (forall s x y, f (f s x) y = f (f s y) x) ->
  l1 ≡ₚ l2 -> forall s, foldl f s l1 = foldl f s l2.
Proof.
  intros Hf Hp. induction Hp as [|x l1 l2 _ IH|x y l|l1 l2 l3 _ IH1 _ IH2];
    intros s; cbn [foldl].
  - reflexivity.
  - apply IH.
  - by rewrite Hf.
  - by rewrite IH1.
Qed.

Section Exact_addition.
Hypothesis cadd_comm : forall x y : C, cadd x y = cadd y x.
Hypothesis cadd_assoc : forall x y z : C, cadd (cadd x y) z = cadd x (cadd y z).

Lemma cadd_swap (x y z : C) : cadd (cadd x y) z = cadd (cadd x z) y.
Proof. by rewrite !cadd_assoc, (cadd_comm y z). Qed.

(** Two atomic additions give the same accumulators in either order. *)
Lemma atomic_add_comm c1 u1 v1 c2 u2 v2 (acc : list C * list C) :
  atomic_add c1 u1 v1 (atomic_add c2 u2 v2 acc) =
    atomic_add c2 u2 v2 (atomic_add c1 u1 v1 acc).
Proof.
  destruct acc as [kx ky]. unfold atomic_add. cbn [fst snd].
  destruct (decide (c1 = c2)) as [->|Hne].
  - destruct (kx !! c2) as [ox|] eqn:Hx; destruct (ky !! c2) as [oy|] eqn:Hy;
      cbn [fst snd]; rewrite ?Hx, ?Hy; try reflexivity.
    rewrite !list_lookup_insert_eq by (by eapply lookup_lt_Some).
    rewrite !list_insert_insert_eq.
    by rewrite (cadd_swap ox u2 u1), (cadd_swap oy v2 v1).
  - destruct (kx !! c1) as [ox1|] eqn:Hx1; destruct (ky !! c1) as [oy1|] eqn:Hy1;
      destruct (kx !! c2) as [ox2|] eqn:Hx2; destruct (ky !! c2) as [oy2|] eqn:Hy2;
      cbn [fst snd];
      rewrite ?list_lookup_insert_ne by done;
      rewrite ?Hx1, ?Hy1, ?Hx2, ?Hy2; try reflexivity.
    f_equal; by apply list_insert_insert_ne.
Qed.

Lemma scatter_step_comm K b (p : pELL_t C) y acc t1 t2 :
  scatter_step (KC := K) b p y (scatter_step (KC := K) b p y acc t1) t2 =
    scatter_step (KC := K) b p y (scatter_step (KC := K) b p y acc t2) t1.
Proof.
  unfold scatter_step. cbv zeta.
  destruct (y !! (t1 / b / prodJd p * b + t1 mod b));
    destruct (y !! (t2 / b / prodJd p * b + t2 mod b));
    try reflexivity.
  apply atomic_add_comm.
Qed.

(** With exact addition the scatter does not depend on the order in which
    its work items land. *)
Lemma pELL_spmvh_mCoil_order K ord b (p : pELL_t C) kx ky y n :
  ord n ≡ₚ atomic_order (Kernels := K) n ->
  pELL_spmvh_mCoil (KC := with_order K ord) b p kx ky y n =
    pELL_spmvh_mCoil (KC := K) b p kx ky y n.
Proof.
  intros Hperm. unfold pELL_spmvh_mCoil.
  change (atomic_order (Kernels := with_order K ord) n) with (ord n).
  change (scatter_step (KC := with_order K ord)) with (scatter_step (KC := K)).
  apply foldl_permutation; [ | exact Hperm ].
  intros acc t1 t2. apply scatter_step_comm.
Qed.

Lemma bind_ext {A B} (m : M C A) (f g : A -> M C B) w :
  (forall a w', f a w' = g a w') -> (m ≫= f) w = (m ≫= g) w.
Proof. intros Hfg. unfold mbind, M_bind. destruct (m w); [ apply Hfg | reflexivity ]. Qed.

Lemma try_except_ext {A} (body body' : M C A) (h h' : exn -> M C A) w :
  body w = body' w -> (forall e w', h e w' = h' e w') ->
  try_except body h w = try_except body' h' w.
Proof.
  intros Hb Hh. unfold try_except. rewrite Hb.
  destruct (body' w); [ reflexivity | apply Hh ].
Qed.

Lemma bind_eq_l {A B} (m m' : M C A) (f : A -> M C B) w :
  m w = m' w -> (m ≫= f) w = (m' ≫= f) w.
Proof. intros Hm. unfold mbind, M_bind. by rewrite Hm. Qed.

Section Orders.
Context (K : Kernels C) (ord : nat -> list nat).
Hypothesis ord_perm : forall n, ord n ≡ₚ atomic_order (Kernels := K) n.

Lemma y2k_order P y w :
  y2k (KC := with_order K ord) P y w = y2k (KC := K) P y w.
Proof.
  unfold y2k.
  change (thr_array (KC := with_order K ord)) with (thr_array (KC := K)).
  apply bind_ext; intros kx w1. apply bind_ext; intros ky w2.
  apply bind_ext; intros [? yarr] w3. apply bind_ext; intros [kxa kxarr] w4.
  apply bind_ext; intros [kya kyarr] w5.
  by rewrite pELL_spmvh_mCoil_order.
Qed.

Lemma adjoint_order P gy w :
  adjoint (KC := with_order K ord) P gy w = adjoint (KC := K) P gy w.
Proof.
  unfold adjoint.
  change (to_device (KC := with_order K ord)) with (to_device (KC := K)).
  change (k2xx (KC := with_order K ord)) with (k2xx (KC := K)).
  change (xx2x (KC := with_order K ord)) with (xx2x (KC := K)).
  apply bind_eq_l. apply try_except_ext; [ apply y2k_order | ].
  intros _ w1. apply try_except_ext; [ | reflexivity ].
  apply bind_ext; intros py w2. apply y2k_order.
Qed.

Lemma adjoint_many2one_order P y w :
  adjoint_many2one (KC := with_order K ord) P y w = adjoint_many2one (KC := K) P y w.
Proof.
  unfold adjoint_many2one.
  change (to_device (KC := with_order K ord)) with (to_device (KC := K)).
  change (x2s (KC := with_order K ord)) with (x2s (KC := K)).
  apply bind_eq_l. apply try_except_ext; [ apply adjoint_order | ].
  intros _ w1. apply try_except_ext; [ | reflexivity ].
  apply bind_ext; intros ? w2. apply bind_ext; intros py w3. apply adjoint_order.
Qed.

Lemma selfadjoint_order P gx w :
  selfadjoint (KC := with_order K ord) P gx w =
    (gy ← forward (KC := K) P gx; adjoint (KC := K) P gy) w.
Proof.
  unfold selfadjoint.
  change (forward (KC := with_order K ord)) with (forward (KC := K)).
  apply bind_ext; intros gy w1. apply adjoint_order.
Qed.

Lemma selfadjoint_one2many2one_order P gx w :
  selfadjoint_one2many2one (KC := with_order K ord) P gx w =
    (gy ← forward_one2many (KC := K) P gx; adjoint_many2one (KC := K) P gy) w.
Proof.
  unfold selfadjoint_one2many2one.
  change (forward_one2many (KC := with_order K ord)) with (forward_one2many (KC := K)).
  apply bind_ext; intros gy w1. apply adjoint_many2one_order.
Qed.

End Orders.

End Exact_addition.

(** C3 (as amended).  [selfadjoint(x)] runs [forward] and then [adjoint] on
    its result, and [selfadjoint_one2many2one(x)] runs [forward_one2many]
    and then [adjoint_many2one]: the same call path, nothing cached.  An
    execution of the composed method and an execution of the two methods
    one after the other give the same outcome (value, device state or
    exception) when the atomic additions of the scatter land in the same
    order in both; when they land in different orders, the outcomes are
    the same provided the addition of the scalars is commutative and
    associative, which rounded addition is not. *)
Theorem selfadjoint_is_adjoint_of_forward (K : Kernels C) P gx w :
  (selfadjoint (KC := K) P gx w =
     (gy ← forward (KC := K) P gx; adjoint (KC := K) P gy) w /\
   selfadjoint_one2many2one (KC := K) P gx w =
     (gy ← forward_one2many (KC := K) P gx; adjoint_many2one (KC := K) P gy) w) /\
  ((forall x y : C, cadd x y = cadd y x) ->
   (forall x y z : C, cadd (cadd x y) z = cadd x (cadd y z)) ->
   forall ord,
     (forall n, ord n ≡ₚ atomic_order (Kernels := K) n) ->
     selfadjoint (KC := with_order K ord) P gx w =
       (gy ← forward (KC := K) P gx; adjoint (KC := K) P gy) w /\
     selfadjoint_one2many2one (KC := with_order K ord) P gx w =
       (gy ← forward_one2many (KC := K) P gx; adjoint_many2one (KC := K) P gy) w).
Proof.
  split; [ split; reflexivity | ].
  intros Hcomm Hassoc ord Hperm. split.
  - by apply selfadjoint_order.
  - by apply selfadjoint_one2many2one_order.
Qed.

End AccumulationOrder.
(** * The constructor *)

Section Constructor.
Import Init.
Implicit Types (env : host_env) (API : option string) (pn dn : option Z).

Lemma init_unfold env API pn dn :
  init env API pn dn =
    match requested env API ≫= platforms_of env with
    | Some pl =>
        match requested env API, pick pl pn dn with
        | Some b, Some d => InitOk b d (warp_size d)
        | _, _ => InitRaise (UnboundLocalError "device")
        end
    | None =>
        match API with
        | None => InitRaise (UnboundLocalError "api")
        | Some _ => InitRaise (AttributeError "Thread")
        end
    end.
Proof.
  unfold init, requested, try_select, create_api, choose_API, pick.
  destruct (cuda_platforms env) as [cpl|] eqn:Hcuda;
    destruct (ocl_platforms env) as [opl|] eqn:Hocl;
    destruct API as [s|]; cbn [fst];
    repeat (case_bool_decide; simplify_eq; cbn -[py_index]);
    rewrite ?Hcuda, ?Hocl; cbn -[py_index]; try done;
    repeat match goal with
           | |- context [py_index ?l ?i] =>
               destruct (py_index l i); cbn -[py_index]
           end;
    try done.
Qed.

(** X14.  The constructor succeeds exactly when the API it ends up asking
    for (the one named by [API], or else cuda if detected, or else ocl if
    detected) can be created and the platform and device numbers, 0 by
    default and counted from the end when negative, index an existing
    device; it then uses that device and its warp size. *)
Theorem init_succeeds_iff env API pn dn b d wf :
  init env API pn dn = InitOk b d wf <->
  requested env API = Some b /\
  (exists pl, platforms_of env b = Some pl /\ pick pl pn dn = Some d) /\
  wf = warp_size d.
Proof.
  rewrite init_unfold.
  destruct (requested env API) as [b'|]; cbn.
  - destruct (platforms_of env b') as [pl|] eqn:Hpl.
    + destruct (pick pl pn dn) as [d'|] eqn:Hpick.
      * split.
        -- intros [= -> -> <-]. eauto.
        -- intros ([= ->] & (pl' & Hpl' & Hd) & ->).
           rewrite Hpl in Hpl'. injection Hpl' as <-.
           rewrite Hpick in Hd. by injection Hd as ->.
      * split; [ done | ].
        intros ([= ->] & (pl' & Hpl' & Hd) & _).
        rewrite Hpl in Hpl'. injection Hpl' as <-. congruence.
    + split.
      * by destruct API.
      * intros ([= ->] & (pl' & Hpl' & _) & _). congruence.
  - split; [ by destruct API | by intros [? _] ].
Qed.

(** X15.  When the constructor fails, the exception does not name the
    missing accelerator.  If the API object cannot be had (nothing
    detected, an unknown name, or its creation raises), the call fails on
    the use of [api]: UnboundLocalError when [API] was left out,
    AttributeError for [Thread] when [API] was given, since [api] then
    still holds the string.  If the API object exists but a number is out
    of range, it fails with UnboundLocalError for [device]. *)
Theorem init_failure_kinds env API pn dn e :
  init env API pn dn = InitRaise e ->
  match requested env API ≫= platforms_of env with
  | Some pl => e = UnboundLocalError "device" /\ pick pl pn dn = None
  | None =>
      match API with
      | None => e = UnboundLocalError "api"
      | Some _ => e = AttributeError "Thread"
      end
  end.
Proof.
  rewrite init_unfold.
  destruct (requested env API) as [b|]; cbn.
  - destruct (platforms_of env b) as [pl|].
    + destruct (pick pl pn dn); [ done | ]. by intros [= <-].
    + destruct API; by intros [= <-].
  - destruct API; by intros [= <-].
Qed.

(** X16.  Detection prefers cuda and never falls back: with cuda detected
    and [API] left out, the constructor does what it does for
    [API = 'cuda'], whatever is known about OpenCL, except that the
    failure on an API object that cannot be created is the
    UnboundLocalError instead of the AttributeError.  An [API] that is
    given decides alone: the detection flags play no part. *)
Theorem init_detection env API pn dn :
  (diag_cuda env = 1%Z ->
   init env None pn dn =
     match init env (Some "cuda") pn dn with
     | InitRaise (AttributeError _) => InitRaise (UnboundLocalError "api")
     | r => r
     end) /\
  (forall s fc fo,
     init (mk_env fc fo (cuda_platforms env) (ocl_platforms env)) (Some s) pn dn =
       init env (Some s) pn dn).
Proof.
  split.
  - intros Hc. rewrite !init_unfold.
    assert (Hr : requested env None = Some Cuda).
    { unfold requested, choose_API. by rewrite bool_decide_eq_true_2. }
    assert (Hr' : requested env (Some "cuda") = Some Cuda) by reflexivity.
    rewrite Hr, Hr'. cbn.
    destruct (cuda_platforms env) as [pl|]; [ | done ].
    by destruct (pick pl pn dn).
  - intros s fc fo. rewrite !init_unfold. reflexivity.
Qed.

End Constructor.

(** * Bindings on the instance *)

Set Warnings "-clear-no-such-hyp".

Section Bindings.
Import Lifecycle.
Implicit Types (i : instance) (s : stmt) (body : list stmt).

Lemma exec_app body1 body2 i :
  exec (body1 ++ body2) i =
    match exec body1 i with
    | Done i1 => exec body2 i1
    | Fails e i1 => Fails e i1
    end.
Proof.
  revert i. induction body1 as [|s body1 IH]; intros i; [ reflexivity | ].
  cbn [app exec]. destruct (exec1 s i); [ apply IH | reflexivity ].
Qed.

Lemma keys_of_insert A (m : gmap string (gset string)) d d' ks :
  keys_of (mk_instance A (<[d := ks]> m)) d' =
    if decide (d = d') then ks else keys_of (mk_instance A m) d'.
Proof.
  unfold keys_of. cbn [items]. destruct (decide (d = d')) as [->|Hne].
  - by rewrite lookup_insert_eq.
  - by rewrite lookup_insert_ne.
Qed.

Lemma keys_of_delete A (m : gmap string (gset string)) d d' :
  keys_of (mk_instance A (delete d m)) d' =
    if decide (d = d') then ∅ else keys_of (mk_instance A m) d'.
Proof.
  unfold keys_of. cbn [items]. destruct (decide (d = d')) as [->|Hne].
  - by rewrite lookup_delete_eq.
  - by rewrite lookup_delete_ne.
Qed.

Lemma keys_of_attrs_irrelevant A A' m d :
  keys_of (mk_instance A m) d = keys_of (mk_instance A' m) d.
Proof. reflexivity. Qed.

Lemma check_mono a i0 i : below i0 i -> check a i0 = None -> check a i = None.
Proof.
  intros [HA HK]. destruct a as [n|d k]; cbn [check].
  - case_bool_decide as H0; [ | done ]. intros _.
    rewrite bool_decide_eq_true_2; [ done | set_solver ].
  - case_bool_decide as H0; [ | done ].
    case_bool_decide as H1; [ | done ]. intros _.
    rewrite bool_decide_eq_true_2 by set_solver.
    rewrite bool_decide_eq_true_2; [ done | ]. specialize (HK d). set_solver.
Qed.

Lemma check_all_None reads i :
  check_all reads i = None <-> forall a, a ∈ reads -> check a i = None.
Proof.
  induction reads as [|a reads IH]; cbn [check_all].
  - split; [ intros _ a Ha; by apply elem_of_nil in Ha | done ].
  - destruct (check a i) eqn:Ha.
    + split; [ done | ]. intros Hall.
      specialize (Hall a (list_elem_of_here _ _)). congruence.
    + rewrite IH. split.
      * intros Hall b [->|Hb]%elem_of_cons; auto.
      * intros Hall b Hb. apply Hall. by apply list_elem_of_further.
Qed.

Lemma check_all_mono reads0 reads i0 i :
  below i0 i -> reads ⊆ reads0 ->
  check_all reads0 i0 = None -> check_all reads i = None.
Proof.
  intros Hb Hsub. rewrite !check_all_None. intros Hall a Ha.
  apply (check_mono a i0 i Hb). apply Hall. by apply Hsub.
Qed.

Lemma exec1_mono s0 s i0 i i0' :
  stmt_le s0 s -> below i0 i -> exec1 s0 i0 = Done i0' ->
  exists i', exec1 s i = Done i' /\ below i0' i'.
Proof.
  intros Hle Hb.
  assert (HA := proj1 Hb). assert (HK := proj2 Hb).
  destruct i0 as [A0 m0], i as [A m]. cbn [attrs] in HA.
  destruct s0 as [n r|n ks0 r|d k r|n|d k|r];
    destruct s as [n' r'|n' ks r'|d' k' r'|n'|d' k'|r']; cbn [stmt_le] in Hle;
    try (by destruct Hle).
  - destruct Hle as (<- & Hr). cbn [exec1].
    destruct (check_all r _) eqn:Hc; [ done | ]. intros [= <-].
    rewrite (check_all_mono _ _ _ _ Hb Hr Hc). eexists. split; [ done | ].
    split; [ cbn [attrs]; set_solver | ].
    intros d. rewrite !keys_of_delete. case_decide; [ done | apply HK ].
  - destruct Hle as (<- & Hr & Hks). cbn [exec1].
    destruct (check_all r _) eqn:Hc; [ done | ]. intros [= <-].
    rewrite (check_all_mono _ _ _ _ Hb Hr Hc). eexists. split; [ done | ].
    split; [ cbn [attrs]; set_solver | ].
    intros d. rewrite !keys_of_insert. case_decide; [ done | apply HK ].
  - destruct Hle as (<- & <- & Hr). cbn [exec1].
    destruct (check_all (r ++ _) _) eqn:Hc; [ done | ]. intros [= <-].
    assert (Hr' : r' ++ [Attr d] ⊆ r ++ [Attr d]) by set_solver.
    rewrite (check_all_mono _ _ _ _ Hb Hr' Hc). eexists. split; [ done | ].
    split; [ done | ].
    intros d'. rewrite !keys_of_insert. case_decide; [ | apply HK ].
    specialize (HK d). set_solver.
  - subst n'. cbn [exec1].
    destruct (check (Attr n) _) eqn:Hc; [ done | ]. intros [= <-].
    rewrite (check_mono _ _ _ Hb Hc). eexists. split; [ done | ].
    split; [ cbn [attrs]; set_solver | ].
    intros d. rewrite !keys_of_delete. case_decide; [ done | apply HK ].
  - destruct Hle as (<- & <-). cbn [exec1].
    destruct (check (Item d k) _) eqn:Hc; [ done | ]. intros [= <-].
    rewrite (check_mono _ _ _ Hb Hc). eexists. split; [ done | ].
    split; [ done | ].
    intros d'. rewrite !keys_of_insert. case_decide; [ | apply HK ].
    specialize (HK d). set_solver.
  - cbn [exec1].
    destruct (check_all r _) eqn:Hc; [ done | ]. intros [= <-].
    rewrite (check_all_mono _ _ _ _ Hb Hle Hc). eexists. by split.
Qed.

Lemma exec_mono body0 body i0 i i0' :
  Forall2 stmt_le body0 body -> below i0 i -> exec body0 i0 = Done i0' ->
  exists i', exec body i = Done i' /\ below i0' i'.
Proof.
  intros Hle. revert i0 i.
  induction Hle as [|s0 s body0 body Hs Hle IH]; intros i0 i Hb; cbn [exec].
  - intros [= <-]. eauto.
  - destruct (exec1 s0 i0) as [i1|] eqn:H1; [ | done ]. intros Hrest.
    destruct (exec1_mono s0 s i0 i i1 Hs Hb H1) as (i1' & -> & Hb1).
    by eapply IH.
Qed.

Lemma exec1_frame s i n :
  n ∉ touched1 s -> n ∈ attrs (instance_of (exec1 s i)) <-> n ∈ attrs i.
Proof.
  intros Hn. destruct s as [n' r|n' ks r|d k r|n'|d k|r]; cbn [exec1 touched1] in *.
  - destruct (check_all r i); cbn; set_solver.
  - destruct (check_all r i); cbn; set_solver.
  - by destruct (check_all _ i).
  - destruct (check _ i); cbn; set_solver.
  - by destruct (check _ i).
  - by destruct (check_all r i).
Qed.

Lemma exec_frame body i n :
  n ∉ touched body -> n ∈ attrs (instance_of (exec body i)) <-> n ∈ attrs i.
Proof.
  revert i. induction body as [|s body IH]; intros i Hn; [ done | ].
  assert (Hs : n ∉ touched1 s) by (unfold touched in Hn; set_solver).
  assert (Hb : n ∉ touched body) by (unfold touched in *; set_solver).
  cbn [exec]. pose proof (exec1_frame s i n Hs) as H1.
  destruct (exec1 s i) as [i1|e i1]; cbn [instance_of] in H1.
  - rewrite IH by done. exact H1.
  - exact H1.
Qed.


Lemma not_touched n body :
  Forall (fun s => n ∉ touched1 s) body -> n ∉ touched body.
Proof.
  induction 1 as [|s body Hs _ IH]; unfold touched in *; cbn [fmap list_fmap union_list];
    set_solver.
Qed.

Lemma release_run i :
  release i =
    if bool_decide ("volume" ∈ attrs i) then
      if bool_decide ("prg" ∈ attrs i) then
        if bool_decide ("pELL" ∈ attrs i) then
          if bool_decide ("thr" ∈ attrs i) then
            Done (mk_instance (attrs i ∖ {["volume"]} ∖ {["prg"]} ∖ {["pELL"]} ∖ {["thr"]})
                    (delete "thr" (delete "pELL" (delete "prg" (delete "volume" (items i))))))
          else Fails (NoAttribute "thr")
                 (mk_instance (attrs i ∖ {["volume"]} ∖ {["prg"]} ∖ {["pELL"]})
                    (delete "pELL" (delete "prg" (delete "volume" (items i)))))
        else Fails (NoAttribute "pELL")
               (mk_instance (attrs i ∖ {["volume"]} ∖ {["prg"]})
                  (delete "prg" (delete "volume" (items i))))
      else Fails (NoAttribute "prg")
             (mk_instance (attrs i ∖ {["volume"]}) (delete "volume" (items i)))
    else Fails (NoAttribute "volume") i.
Proof.
  unfold release, release_body. cbn [exec exec1 check check_all attrs items].
  case_bool_decide as Hv; [ | reflexivity ]. cbn [exec exec1 check check_all attrs items].
  destruct (decide ("prg" ∈ attrs i)) as [Hp|Hp].
  2: { rewrite !bool_decide_eq_false_2 by set_solver. reflexivity. }
  rewrite !(bool_decide_eq_true_2 ("prg" ∈ _)) by set_solver.
  cbn [exec exec1 check check_all attrs items].
  destruct (decide ("pELL" ∈ attrs i)) as [He|He].
  2: { rewrite !bool_decide_eq_false_2 by set_solver. reflexivity. }
  rewrite !(bool_decide_eq_true_2 ("pELL" ∈ _)) by set_solver.
  cbn [exec exec1 check check_all attrs items].
  destruct (decide ("thr" ∈ attrs i)) as [Ht|Ht].
  2: { rewrite !bool_decide_eq_false_2 by set_solver. reflexivity. }
  rewrite !(bool_decide_eq_true_2 ("thr" ∈ _)) by set_solver.
  reflexivity.
Qed.

Lemma release_attrs i i' :
  release i = Done i' -> attrs i' = attrs i ∖ released_names.
Proof.
  rewrite release_run. unfold released_names. intros Hrun.
  repeat case_bool_decide; try discriminate Hrun.
  injection Hrun as <-. cbn [attrs]. set_solver.
Qed.

(** X17.  [release] succeeds exactly on an instance that has [volume],
    [prg], [pELL] and [thr], and unbinds these four names and no other:
    the scaling-tensor dictionary [tSN], the transform [fft], the plan
    dictionary [st] and every other attribute stay as they were. *)
Theorem release_unbinds i :
  (released_names ⊆ attrs i <-> exists i', release i = Done i') /\
  (forall i', release i = Done i' ->
     attrs i' = attrs i ∖ released_names /\
     forall d, d ∉ released_names -> items i' !! d = items i !! d).
Proof.
  rewrite release_run. unfold released_names. split.
  - split.
    + intros Hsub. rewrite !bool_decide_eq_true_2 by set_solver. eauto.
    + intros [i' Hrun]. repeat case_bool_decide; try discriminate Hrun. set_solver.
  - intros i' Hrun. repeat case_bool_decide; try discriminate Hrun.
    injection Hrun as <-. cbn [attrs items]. split; [ set_solver | ].
    intros d Hd. rewrite !lookup_delete_ne by set_solver. reflexivity.
Qed.

(** X18.  [release] cannot be repeated: on an instance that has been
    released, and likewise on one that was never planned, it raises
    AttributeError for [volume] and changes nothing, so that in the second
    case the thread stays bound. *)
Theorem release_not_repeatable i :
  (forall i', release i = Done i' -> release i' = Fails (NoAttribute "volume") i') /\
  ("volume" ∉ attrs i -> release i = Fails (NoAttribute "volume") i).
Proof.
  split.
  - intros i' Hrun. pose proof (release_attrs i i' Hrun) as HA.
    rewrite release_run, bool_decide_eq_false_2; [ reflexivity | ].
    rewrite HA. unfold released_names. set_solver.
  - intros Hv. by rewrite release_run, bool_decide_eq_false_2.
Qed.

Lemma offload_body_last batched :
  exists front, offload_body batched = front ++ [DelItem "st" "pELL"].
Proof. eexists (take 30 (offload_body batched)). reflexivity. Qed.

Lemma exec_DelItem_inv d k i1 i' :
  exec [DelItem d k] i1 = Done i' ->
  d ∈ attrs i1 /\ i' = mk_instance (attrs i1) (<[d := keys_of i1 d ∖ {[k]}]> (items i1)).
Proof.
  cbn [exec exec1 check]. repeat case_bool_decide; try discriminate.
  by intros [= <-].
Qed.

Lemma offload_start_fails i :
  "st" ∈ attrs i -> "pELL" ∉ keys_of i "st" ->
  exec [NewDict "pELL" ∅ []; pELL_scalar "nRow"] i =
    Fails (NoKey "pELL") (mk_instance ({["pELL"]} ∪ attrs i) (<["pELL" := ∅]> (items i))).
Proof.
  intros Hst Hk. cbn [exec exec1 check_all pELL_scalar app check attrs].
  rewrite bool_decide_eq_true_2 by set_solver.
  rewrite bool_decide_eq_false_2; [ reflexivity | ].
  rewrite keys_of_insert, decide_False by done. exact Hk.
Qed.

Lemma offload_body_first batched :
  offload_body batched =
    [NewDict "pELL" ∅ []; pELL_scalar "nRow"] ++ drop 2 (offload_body batched).
Proof. reflexivity. Qed.

(** X19.  [offload] cannot be run a second time: it ends by deleting
    [st['pELL']], so a second call, having replaced [self.pELL] by an empty
    dictionary, raises KeyError for [pELL] on the first table it wants to
    read; the instance is left with an interpolator dictionary that has no
    entry. *)
Theorem offload_twice batched batched' i i' :
  offload batched i = Done i' ->
  exists i'',
    offload batched' i' = Fails (NoKey "pELL") i'' /\
    "pELL" ∈ attrs i'' /\ keys_of i'' "pELL" = ∅ /\
    "pELL" ∉ keys_of i' "st".
Proof.
  unfold offload at 1. destruct (offload_body_last batched) as [front ->].
  rewrite exec_app. destruct (exec front i) as [i1|]; [ | discriminate ]. intros Hlast.
  destruct (exec_DelItem_inv _ _ _ _ Hlast) as [Hst ->]. clear Hlast.
  assert (Hk : "pELL" ∉ keys_of (mk_instance (attrs i1)
                 (<["st" := keys_of i1 "st" ∖ {["pELL"]}]> (items i1))) "st").
  { rewrite keys_of_insert. rewrite decide_True by done. set_solver. }
  eexists. split; [ | split; [ | split; [ | exact Hk ] ] ].
  - unfold offload. rewrite (offload_body_first batched'), exec_app.
    rewrite offload_start_fails; [ reflexivity | exact Hst | exact Hk ].
  - cbn [attrs]. set_solver.
  - rewrite keys_of_insert. by rewrite decide_True.
Qed.

Ltac stmts_le :=
  repeat (constructor;
          [ cbn [stmt_le]; repeat split; try done;
            repeat match goal with b : bool |- _ => destruct b end;
            set_solver | ]);
  constructor.

Lemma plan_body_le K ft b1 sg bt :
  required_keys ⊆ K ->
  Forall2 stmt_le (plan_body required_keys false true false true) (plan_body K ft b1 sg bt).
Proof.
  intros HK. unfold plan_body, plan_attribute_body, offload_body, pELL_scalar, pELL_table.
  cbn [app]. stmts_le.
Qed.

Lemma plan_run_constructed :
  exists i',
    exec (plan_body required_keys false true false true) constructed = Done i' /\
    {["pELL"; "volume"; "tSN"; "fft"; "st"; "multi_Nd"; "multi_M"]} ⊆ attrs i' /\
    {["nRow"; "prodJd"; "sumJd"; "dim"; "Jd"; "meshindex"; "kindx"; "udata"]}
      ⊆ keys_of i' "pELL" /\
    "gpu_coil_profile" ∈ keys_of i' "volume".
Proof.
  assert (H0 :
    match exec (plan_body required_keys false true false true) constructed with
    | Done i' =>
        bool_decide ({["pELL"; "volume"; "tSN"; "fft"; "st"; "multi_Nd"; "multi_M"]}
                       ⊆ attrs i')
        && bool_decide ({["nRow"; "prodJd"; "sumJd"; "dim"; "Jd"; "meshindex"; "kindx";
                          "udata"]} ⊆ keys_of i' "pELL")
        && bool_decide ("gpu_coil_profile" ∈ keys_of i' "volume")
    | Fails _ _ => false
    end = true) by (vm_compute; reflexivity).
  revert H0.
  destruct (exec (plan_body required_keys false true false true) constructed) as [i'|];
    intros H0; [ | discriminate H0 ].
  apply andb_prop in H0 as [H0 HV0]. apply andb_prop in H0 as [HA0 HK0].
  apply bool_decide_eq_true_1 in HA0, HK0, HV0.
  exists i'. split; [ reflexivity | ]. split; [ exact HA0 | ]. split; [ exact HK0 | exact HV0 ].
Qed.

(** X20.  [plan] needs nothing on the instance but the thread and the
    dtype that the constructor binds, whatever else is bound: if the
    dictionary of the planner has the six keys that are read, [plan]
    succeeds, on a new instance as on one planned before.  Afterwards the
    interpolator, volume and tensor dictionaries and the transform are
    bound, the volume holds the coil profile, the interpolator holds its
    eight entries, and [st] no longer has the key [pELL]. *)
Theorem plan_binds K ft b1 sg bt i :
  required_keys ⊆ K ->
  below constructed i ->
  exists i',
    plan K ft b1 sg bt i = Done i' /\
    {["pELL"; "volume"; "tSN"; "fft"; "st"; "multi_Nd"; "multi_M"]} ⊆ attrs i' /\
    {["nRow"; "prodJd"; "sumJd"; "dim"; "Jd"; "meshindex"; "kindx"; "udata"]}
      ⊆ keys_of i' "pELL" /\
    "gpu_coil_profile" ∈ keys_of i' "volume" /\
    "pELL" ∉ keys_of i' "st".
Proof.
  intros HK Hb.
  destruct plan_run_constructed as (i0' & Hrun0 & HA0 & HK0 & HV0).
  destruct (exec_mono _ _ _ _ _ (plan_body_le K ft b1 sg bt HK) Hb Hrun0)
    as (i' & Hrun & HA & Hkeys).
  clear Hrun0.
  exists i'. split; [ exact Hrun | ].
  split; [ by etrans | ].
  split; [ etrans; [ exact HK0 | apply Hkeys ] | ].
  split; [ eapply elem_of_weaken; [ exact HV0 | apply Hkeys ] | ].
  unfold plan_body in Hrun.
  destruct (offload_body_last bt) as [front Hfront]. rewrite Hfront in Hrun.
  rewrite app_assoc, exec_app in Hrun.
  destruct (exec (_ ++ front) i) as [i1|]; [ | done ].
  destruct (exec_DelItem_inv _ _ _ _ Hrun) as [_ ->].
  rewrite keys_of_insert, decide_True by done. set_solver.
Qed.

Lemma plan_front_le K ft b1 sg bt :
  required_keys ⊆ K ->
  Forall2 stmt_le (plan_front required_keys false true false true) (plan_front K ft b1 sg bt).
Proof.
  intros HK. unfold plan_front, plan_attribute_body, offload_body, pELL_scalar, pELL_table.
  cbn [app take]. stmts_le.
Qed.

Lemma plan_front_run :
  exists i', exec (plan_front required_keys false true false true) no_instance = Done i'.
Proof.
  assert (H0 :
    match exec (plan_front required_keys false true false true) no_instance with
    | Done _ => true
    | Fails _ _ => false
    end = true) by (vm_compute; reflexivity).
  revert H0.
  destruct (exec (plan_front required_keys false true false true) no_instance) as [i'|];
    intros H0; [ | discriminate H0 ].
  by exists i'.
Qed.

Lemma plan_front_keeps K ft b1 sg bt :
  ("thr" ∉ touched (plan_front K ft b1 sg bt)) /\
  ("volume" ∉ touched (plan_front K ft b1 sg bt)).
Proof.
  split; apply not_touched;
    unfold plan_front, plan_attribute_body, offload_body, pELL_scalar, pELL_table;
    cbn [app take];
    repeat (constructor;
            [ cbn [touched1];
              first [ apply not_elem_of_empty | apply not_elem_of_singleton; discriminate ] | ]);
    constructor.
Qed.

(** X21.  A released instance cannot be planned again: [plan] rebinds its
    attributes and the four scalars of the interpolator, and then raises
    AttributeError for [thr] where [offload] first wants the thread. *)
Theorem replan_after_release K ft b1 sg bt i i' :
  required_keys ⊆ K ->
  release i = Done i' ->
  exists i'',
    plan K ft b1 sg bt i' = Fails (NoAttribute "thr") i'' /\
    ("thr" ∉ attrs i'') /\ ("volume" ∉ attrs i'').
Proof.
  intros HK Hrel.
  pose proof (release_attrs i i' Hrel) as HA.
  assert (Hthr : "thr" ∉ attrs i') by (rewrite HA; unfold released_names; set_solver).
  assert (Hvol : "volume" ∉ attrs i') by (rewrite HA; unfold released_names; set_solver).
  assert (Hsplit : plan_body K ft b1 sg bt = plan_front K ft b1 sg bt ++ drop 5 (offload_body bt)).
  { unfold plan_front, plan_body. rewrite <- app_assoc. by rewrite take_drop. }
  assert (Hbelow : below no_instance i').
  { split; [ set_solver | ]. intros d. unfold keys_of at 1. cbn. set_solver. }
  destruct plan_front_run as (i0 & Hrun0).
  destruct (exec_mono _ _ _ _ _ (plan_front_le K ft b1 sg bt HK) Hbelow Hrun0)
    as (i1 & Hrun & _).
  clear Hrun0.
  assert (Hframe : forall n, n ∉ touched (plan_front K ft b1 sg bt) ->
                     n ∈ attrs i1 <-> n ∈ attrs i').
  { intros n Hn. pose proof (exec_frame (plan_front K ft b1 sg bt) i' n Hn) as Hf.
    by rewrite Hrun in Hf. }
  pose proof (plan_front_keeps K ft b1 sg bt) as Ht.
  exists i1. split; [ | split ].
  - unfold plan. rewrite Hsplit, exec_app, Hrun.
    assert (Hd : drop 5 (offload_body bt) =
              pELL_table "Jd" [] :: drop 6 (offload_body bt)) by reflexivity.
    rewrite Hd. cbn [exec exec1 pELL_table app check_all check].
    rewrite bool_decide_eq_false_2; [ reflexivity | ].
    rewrite Hframe; [ exact Hthr | apply Ht ].
  - rewrite Hframe; [ exact Hthr | apply Ht ].
  - rewrite Hframe; [ exact Hvol | apply Ht ].
Qed.

End Bindings.

(** * Closed instances *)

Import Exact.

Lemma forward_is_k2y_xx2k_x2xx_witness :
  heap w0 !! 0 = Some img0 /\
  forward P0 (GpuArr 0) w0 =
    (xx ← x2xx P0 (GpuArr 0); k ← xx2k P0 xx; k2y P0 k) w0.
Proof.
  split; [ reflexivity | ].
  exact (proj1 (forward_is_k2y_xx2k_x2xx P0 0 img0 w0 eq_refl)).
Defined.

Lemma adjoint_is_xx2x_k2xx_y2k_witness :
  heap w0 !! 0 = Some img0 /\
  adjoint P0 (GpuArr 0) w0 =
    (k ← y2k P0 (GpuArr 0); xx ← k2xx P0 k; xx2x P0 xx) w0.
Proof.
  split; [ reflexivity | ].
  exact (proj1 (adjoint_is_xx2x_k2xx_y2k P0 0 img0 w0 eq_refl)).
Defined.

(** Gaussian integers add exactly: with the scatter taken from the last
    work item to the first, [selfadjoint] gives what [forward] and then
    [adjoint] give in index order. *)
Lemma selfadjoint_is_adjoint_of_forward_witness :
  (forall x y : GZ, cadd x y = cadd y x) /\
  (forall x y z : GZ, cadd (cadd x y) z = cadd x (cadd y z)) /\
  (forall n, backwards n ≡ₚ atomic_order (Kernels := GZ_kernels) n) /\
  selfadjoint (KC := with_order GZ_kernels backwards) P0 (GpuArr 0) w0 =
    (gy ← forward P0 (GpuArr 0); adjoint P0 gy) w0.
Proof.
  assert (Hc : forall x y : GZ, cadd x y = cadd y x).
  { intros [a b] [c d]. cbn. f_equal; lia. }
  assert (Ha : forall x y z : GZ, cadd (cadd x y) z = cadd x (cadd y z)).
  { intros [a b] [c d] [e f]. cbn. f_equal; lia. }
  assert (Hp : forall n, backwards n ≡ₚ atomic_order (Kernels := GZ_kernels) n).
  { intros n. apply reverse_Permutation. }
  split; [ exact Hc | ]. split; [ exact Ha | ]. split; [ exact Hp | ].
  exact (proj1 (proj2 (selfadjoint_is_adjoint_of_forward GZ_kernels P0 (GpuArr 0) w0)
                  Hc Ha backwards Hp)).
Defined.

(** Sample 0 of the example reads cells 0 and 1 with weights 1 and 2. *)
Lemma k2y_interpolates_witness :
  heap w0 !! 1 = Some grid0 /\ nRow (st_pELL st0) = st_M st0 /\
  st_M st0 * batch P0 < 2 ^ 32 /\
  exists yarr,
    k2y P0 (GpuArr 1) w0 = Ok (GpuArr 3) (set_heap (heap w0 ++ [yarr]) w0) /\
    shape yarr = [2] /\
    data yarr !! 0 = Some (20, 28)%Z.
Proof.
  assert (H1 : nRow (st_pELL st0) = st_M st0) by reflexivity.
  assert (H2 : st_M st0 * batch P0 < 2 ^ 32).
  { change (st_M st0 * batch P0) with 2. pose proof (Nat.pow_gt_lin_r 2 32). lia. }
  split; [ reflexivity | ]. split; [ exact H1 | ]. split; [ exact H2 | ].
  destruct (k2y_interpolates 4 st0 None None 1 grid0 w0 eq_refl)
    as (yarr & Hrun & Hshape & _ & _ & Hsum).
  exists yarr. split; [ exact Hrun | ]. split; [ exact Hshape | ].
  exact (Hsum H1 H2 0 0 ltac:(vm_compute; lia) ltac:(vm_compute; lia)).
Defined.

Lemma forward_adjoint_shapes_witness :
  heap w0 !! 0 = Some img0 /\
  (exists r w' yarr,
     forward P0 (GpuArr 0) w0 = Ok (GpuArr r) w' /\
     heap w' !! r = Some yarr /\ shape yarr = [2]) /\
  (exists r w' xarr,
     adjoint P0 (GpuArr 0) w0 = Ok (GpuArr r) w' /\
     heap w' !! r = Some xarr /\ shape xarr = [2]).
Proof.
  split; [ reflexivity | ].
  exact (forward_adjoint_shapes 4 st0 None None 0 img0 w0 eq_refl).
Defined.

Lemma forward_adjoint_keep_argument_witness :
  heap w0 !! 0 = Some img0 /\
  exists r w', forward P0 (GpuArr 0) w0 = Ok r w' /\ heap w' !! 0 = Some img0.
Proof.
  split; [ reflexivity | ].
  destruct (forward_adjoint_keep_argument P0 0 img0 w0 eq_refl)
    as ((r & w' & Hrun & Hkeep & _) & _).
  exists r, w'. split; assumption.
Defined.

(** With the profile i stored, [x2s] leaves (1+2i)(-i) = 2-i in the first
    cell of the two-channel buffer that was passed to it. *)
Lemma x2s_overwrites_s2x_keeps_witness :
  heap wb1 !! 0 = Some chan0 /\ gpu_coil_profile wb1 = GpuArr 2 /\
  heap wb1 !! 2 = Some prof_i /\
  exists r w' xarr,
    x2s Pb (GpuArr 0) wb1 = Ok (GpuArr r) w' /\ heap w' !! 0 = Some xarr /\
    data xarr !! 0 = Some (2, -1)%Z.
Proof.
  repeat split.
  destruct (x2s_overwrites_s2x_keeps Pb 0 chan0 2 prof_i wb1
              eq_refl eq_refl eq_refl)
    as ((r & w' & xarr & Hrun & Hx & _ & _ & Hdata & _) & _).
  exists r, w', xarr. repeat split; try assumption.
  apply (Hdata 0 (1, 2)%Z (0, 1)%Z); [ vm_compute; lia | reflexivity | reflexivity ].
Defined.

(** After [set_sense(prof_Nd)] the stored profile is (i, i); [reset_sense]
    makes it uniform again. *)
Lemma uniform_profile_after_plan_and_reset_witness :
  coil_buffer w1 = Some (mk_ndarray [2] complex64 [(0, 1)%Z; (0, 1)%Z]) /\
  sense_ok P0 w1 /\
  exists w', reset_sense w1 = Ok tt w' /\
    coil_buffer w' = Some (uniform_profile P0) /\ sense_ok P0 w'.
Proof.
  assert (Hok : sense_ok P0 w1).
  { exists (mk_ndarray [2] complex64 [(0, 1)%Z; (0, 1)%Z]).
    repeat split; reflexivity. }
  split; [ reflexivity | ]. split; [ exact Hok | ].
  exact (proj1 (proj2 (uniform_profile_after_plan_and_reset 4 st0 None None)) w1 Hok).
Defined.

(** [adjoint] on an object that is no array: the kernel launch of the fast
    path fails, [to_device] fails on the missing [shape], and the caller
    sees the latter. *)
Lemma fallback_runs_once_and_surfaces_its_failure_witness :
  fast_path P0 Adjoint PyObj w0 =
    Raise (DeviceError "pELL_spmvh_mCoil") (world_of (y2k P0 PyObj w0)) /\
  adjoint P0 PyObj w0 =
    Raise (AttributeError "shape")
      (world_of (fallback_path P0 Adjoint PyObj (world_of (y2k P0 PyObj w0)))) /\
  to_device_calls (world_of (adjoint P0 PyObj w0)) = 1.
Proof.
  destruct (fallback_runs_once_and_surfaces_its_failure P0 Adjoint PyObj w0
              (DeviceError "pELL_spmvh_mCoil") (world_of (y2k P0 PyObj w0)) eq_refl)
    as (_ & Hraise & Hcalls).
  split; [ reflexivity | ]. split.
  - apply Hraise; [ reflexivity | by left ].
  - apply Hcalls. by right.
Defined.

(** ** Where the specification and the code part *)

(** With rounded addition the result depends on the order in which the
    scatter accumulates.  The image 1 gives the samples 4, 2, 2, whose
    contributions 16, 4, 4 to the one grid cell add up to 16 in index
    order and to 24 from the last to the first: [forward] and then
    [adjoint] in the one order and [selfadjoint] in the other return
    different arrays. *)
Lemma selfadjoint_depends_on_accumulation_order :
  (forall n, backwards n ≡ₚ atomic_order (Kernels := GZ_kernels) n) /\
  (exists w',
     (gy ← forward (SC := Rounded.fl_scalar) (KC := GZ_kernels) Rounded.P3 (GpuArr 0);
      adjoint (SC := Rounded.fl_scalar) (KC := GZ_kernels) Rounded.P3 gy) Rounded.w3 =
       Ok (GpuArr 10) w' /\
     heap w' !! 10 = Some (mk_ndarray [1] complex64 [(16, 0)%Z])) /\
  (exists w',
     selfadjoint (SC := Rounded.fl_scalar) (KC := with_order GZ_kernels backwards)
       Rounded.P3 (GpuArr 0) Rounded.w3 = Ok (GpuArr 10) w' /\
     heap w' !! 10 = Some (mk_ndarray [1] complex64 [(24, 0)%Z])).
Proof.
  split; [ intros n; apply reverse_Permutation | ].
  split; (eexists; split; [ vm_compute; reflexivity | reflexivity ]).
Qed.

(** With 2^16 + 1 samples and 2^16 channels the product nRow * batch is
    2^32 + 2^16, which as a [numpy.uint32] is 2^16: the launch computes the
    2^16 entries of sample 0 only.  Sample 1 of channel 0, whose sum is 1,
    is left at the zero the output was filled with. *)
Lemma k2y_launch_size_wraps :
  nRow (st_pELL st_wide) = st_M st_wide /\
  1 < st_M st_wide /\ 0 < batch P_wide /\
  uint32 (nRow (pELL P_wide) * batch P_wide) = 2 ^ 16 /\
  exists yarr w',
    k2y P_wide (GpuArr 0) w_wide = Ok (GpuArr 2) w' /\
    heap w' !! 2 = Some yarr /\
    data yarr !! (1 * batch P_wide + 0) = Some (0, 0)%Z /\
    foldl (fun acc j =>
             cadd acc
               (cmul (weight (pELL P_wide) 1 j)
                  (default czero
                     (data grid_wide !! (neighborIndex (pELL P_wide) 1 j * batch P_wide + 0)))))
          czero (seq 0 (prodJd (pELL P_wide))) = (1, 0)%Z.
Proof.
  assert (Hpow : 16 < 2 ^ 16) by apply Nat.pow_gt_lin_r, Nat.lt_1_2.
  assert (Hbatch : batch P_wide = 2 ^ 16).
  { change (batch P_wide) with (uint32 (2 ^ 16)). apply uint32_small.
    apply Nat.pow_lt_mono_r; lia. }
  assert (HnRow : nRow (pELL P_wide) = 2 ^ 16 + 1).
  { change (nRow (pELL P_wide)) with (uint32 (2 ^ 16 + 1)). apply uint32_small.
    apply Nat2Z.inj_lt. rewrite Nat2Z.inj_add, !of_nat_pow2. reflexivity. }
  assert (Hrows : uint32 (nRow (pELL P_wide) * batch P_wide) = 2 ^ 16).
  { rewrite HnRow, Hbatch. apply Nat2Z.inj. unfold uint32.
    rewrite N_nat_Z, N2Z.inj_mod, nat_N_Z.
    rewrite Nat2Z.inj_mul, Nat2Z.inj_add, !of_nat_pow2. reflexivity. }
  assert (Hsize : prod_list (multi_M P_wide) = (2 ^ 16 + 1) * 2 ^ 16).
  { unfold P_wide. rewrite plan_multi_M_size. fold P_wide. by rewrite Hbatch. }
  split; [ reflexivity | ].
  split; [ change (st_M st_wide) with (2 ^ 16 + 1); lia | ].
  split; [ rewrite Hbatch; lia | ].
  split; [ exact Hrows | ].
  eexists _, _. split; [ apply (k2y_device P_wide 0 grid_wide w_wide); reflexivity | ].
  split; [ apply (lookup_snoc (heap w_wide)) | ].
  split; [ | vm_compute; reflexivity ].
  cbn [data]. unfold pELL_spmv_mCoil. rewrite Hrows, Hsize, Hbatch.
  apply elementwise_beyond; [ lia | ].
  apply lookup_replicate_2. nia.
Qed.

(** In the plan made without [batch], Nd + (batch,) is (2, 1): a profile of
    that shape is refused, and a profile of shape Nd = (2,), which differs
    from it, is accepted. *)
Lemma set_sense_refuses_Nd_plus_batch :
  shape prof_Nd_1 = Nd P0 ++ [batch P0] /\
  set_sense P0 (HostArr prof_Nd_1) w0 = Raise ValueError w0 /\
  shape prof_Nd ≠ Nd P0 ++ [batch P0] /\
  set_sense P0 (HostArr prof_Nd) w0 = Ok tt w1.
Proof. repeat split. discriminate. Qed.

(** [forward] on the same object: the handler of the fallback evaluates the
    name [gxx], which is bound nowhere. *)
Lemma forward_handler_raises_NameError :
  exists w', forward P0 PyObj w0 = Raise (NameError "gxx") w'.
Proof. eexists. reflexivity. Qed.

(** [adjoint] does not surface the failure of its fast path. *)
Lemma adjoint_surfaces_fallback_failure :
  ~ surfaces_original_failure P0 Adjoint PyObj w0.
Proof.
  intros Hs.
  destruct (Hs (DeviceError "pELL_spmvh_mCoil") (world_of (y2k P0 PyObj w0))
               (AttributeError "shape")
               (world_of (fallback_path P0 Adjoint PyObj (world_of (y2k P0 PyObj w0))))
               eq_refl eq_refl) as [w' Hw'].
  discriminate Hw'.
Qed.

(** Under the uniform profile that [plan] installs, the two-channel buffer
    passed to [x2s] holds after the call exactly what it held before. *)
Lemma x2s_uniform_profile_keeps_values :
  coil_buffer wb = Some (uniform_profile Pb) /\
  heap wb !! 0 = Some chan0 /\
  exists r w', x2s Pb (GpuArr 0) wb = Ok r w' /\ heap w' !! 0 = Some chan0.
Proof. repeat split. do 2 eexists. split; reflexivity. Qed.

(** ** Instances of the further properties *)

(** A list has no [shape]: both attempts fail with AttributeError. *)
Lemma forward_fails_with_NameError_witness :
  x2xx P0 PyObj w0 = Raise (AttributeError "shape") w0 /\
  (px ← to_device PyObj; x2xx P0 px) w0 =
    Raise (AttributeError "shape") (world_of (to_device PyObj w0)) /\
  forward P0 PyObj w0 = Raise (NameError "gxx") (world_of (to_device PyObj w0)).
Proof.
  split; [ reflexivity | ]. split; [ reflexivity | ].
  exact (forward_fails_with_NameError P0 PyObj w0 (AttributeError "shape") w0
           (AttributeError "shape") (world_of (to_device PyObj w0)) eq_refl eq_refl).
Defined.

Lemma forward_adjoint_quiet_witness :
  heap w0 !! 0 = Some img0 /\
  exists r w', forward P0 (GpuArr 0) w0 = Ok r w' /\ quiet w0 w'.
Proof.
  split; [ reflexivity | ].
  destruct (forward_adjoint_quiet P0 0 img0 w0 eq_refl) as ((r & w' & Hrun & Hq & _) & _).
  exists r, w'. split; [ exact Hrun | exact Hq ].
Defined.

(** The two-channel array has the shape [multi_M] of the batched plan. *)
Lemma multichannel_on_device_witness :
  heap wb1 !! 0 = Some chan0 /\ gpu_coil_profile wb1 = GpuArr 2 /\
  heap wb1 !! 2 = Some prof_i /\
  exists r w' sarr,
    adjoint_many2one Pb (GpuArr 0) wb1 = Ok (GpuArr r) w' /\
    heap w' !! r = Some sarr /\ shape sarr = [2].
Proof.
  split; [ reflexivity | ]. split; [ reflexivity | ]. split; [ reflexivity | ].
  destruct (multichannel_on_device Pb 0 chan0 2 prof_i wb1 eq_refl eq_refl eq_refl)
    as (_ & r & w' & sarr & Hrun & _ & Hr & Hs & _).
  exists r, w', sarr. split; [ exact Hrun | split; [ exact Hr | exact Hs ] ].
Defined.

Lemma selfadjoint_on_device_witness :
  heap w0 !! 0 = Some img0 /\
  exists r w' xarr,
    selfadjoint P0 (GpuArr 0) w0 = Ok (GpuArr r) w' /\
    heap w' !! r = Some xarr /\ quiet w0 w'.
Proof.
  split; [ reflexivity | ].
  destruct (selfadjoint_on_device P0 0 img0 w0 eq_refl)
    as ((r & w' & xarr & Hrun & Hr & _ & Hq) & _).
  exists r, w', xarr. split; [ exact Hrun | split; [ exact Hr | exact Hq ] ].
Defined.

Lemma multichannel_host_array_witness :
  gpu_coil_profile wb1 = GpuArr 2 /\ heap wb1 !! 2 = Some prof_i /\
  exists r w',
    forward_one2many Pb (HostArr img0) wb1 = Ok (GpuArr r) w' /\
    to_device_calls w' = S (to_device_calls wb1).
Proof.
  split; [ reflexivity | ]. split; [ reflexivity | ].
  destruct (multichannel_host_array Pb img0 2 prof_i wb1 eq_refl eq_refl)
    as ((r & w' & Hrun & _ & Hcalls & _) & _).
  exists r, w'. split; [ exact Hrun | exact Hcalls ].
Defined.

(** The profile of shape Nd + (1,) is refused by the plan made without
    [batch], with ValueError. *)
Lemma set_sense_failure_changes_nothing_witness :
  set_sense P0 (HostArr prof_Nd_1) w0 = Raise ValueError w0 /\
  exists shp, shape_of (HostArr prof_Nd_1) w0 = Ok shp w0 /\ shp ≠ multi_Nd P0.
Proof.
  split; [ reflexivity | ].
  exact (proj2 (proj2 (set_sense_failure_changes_nothing P0 (HostArr prof_Nd_1) w0
                         ValueError w0 eq_refl)) eq_refl).
Defined.

Lemma reset_sense_in_place_idempotent_witness :
  gpu_coil_profile w1 = GpuArr 3 /\ heap w1 !! 3 = Some prof_Nd /\
  exists w',
    reset_sense w1 = Ok tt w' /\ reset_sense w' = Ok tt w' /\
    length (heap w') = length (heap w1).
Proof.
  split; [ reflexivity | ]. split; [ reflexivity | ].
  destruct (reset_sense_in_place_idempotent 3 prof_Nd w1 eq_refl eq_refl)
    as (w' & Hrun & Hagain & _ & _ & Hlen & _).
  exists w'. split; [ exact Hrun | split; [ exact Hagain | exact Hlen ] ].
Defined.

Lemma k2xx_overwrites_its_argument_witness :
  heap w0 !! 1 = Some grid0 /\
  exists r w',
    k2xx P0 (GpuArr 1) w0 = Ok (GpuArr r) w' /\ r ≠ 1 /\
    heap w' !! r = Some (mk_ndarray [2] complex64 (k2xx_data P0 (data grid0))).
Proof.
  split; [ reflexivity | ].
  destruct (k2xx_overwrites_its_argument P0 1 grid0 w0 eq_refl)
    as ((r & w' & Hrun & Hne & _ & Hr & _) & _).
  exists r, w'. split; [ exact Hrun | split; [ exact Hne | exact Hr ] ].
Defined.

(** With [batch = 2] and Nd = (2,), an array of shape Nd + (2,) has the
    4 elements of the launch size batch * Ndprod. *)
Lemma plan_sizes_witness :
  prod_list (st_Nd st0) < 2 ^ 31 /\
  prod_list (multi_Nd Pb) = batch Pb * Ndprod Pb.
Proof.
  assert (H : prod_list (st_Nd st0) < 2 ^ 31).
  { change (prod_list (st_Nd st0)) with 2. pose proof (Nat.pow_gt_lin_r 2 31). lia. }
  split; [ exact H | ].
  exact (proj1 (plan_sizes 4 st0 None (Some 2)) H).
Defined.

Lemma to_device_transfers_witness :
  exists r w',
    to_device (HostArr prof_Nd) w0 = Ok (GpuArr r) w' /\
    heap w' !! r = Some prof_Nd /\ heap w' !! 0 = Some img0.
Proof.
  destruct (to_device_transfers prof_Nd w0)
    as ((r & w' & Hrun & _ & Hr & _ & Hold & _) & _).
  exists r, w'. split; [ exact Hrun | split; [ exact Hr | exact (Hold 0 img0 eq_refl) ] ].
Defined.

(** A host array of shape (2, 1), where Nd is (2,), when no profile is on
    the device. *)
Lemma forward_one2many_failure_witness :
  forward_one2many P0 (HostArr prof_Nd_1) w_lost =
    Raise (UnboundLocalError "x")
      (world_of (forward_one2many P0 (HostArr prof_Nd_1) w_lost)) /\
  coil_buffer w_lost = None.
Proof.
  split; [ reflexivity | ].
  exact (proj1 (proj2 (proj2
    (forward_one2many_failure P0 (HostArr prof_Nd_1) w_lost (UnboundLocalError "x")
       (world_of (forward_one2many P0 (HostArr prof_Nd_1) w_lost)) eq_refl))
    prof_Nd_1 eq_refl)).
Defined.

Section ConstructorInstances.
Import Init.

(** With both APIs detected and no [API] given, device number -1 is the
    last cuda device. *)
Lemma init_succeeds_iff_witness :
  init host_both None None (Some (-1)%Z) = InitOk Cuda (mk_device 1 32) 32 /\
  requested host_both None = Some Cuda /\
  exists pl,
    platforms_of host_both Cuda = Some pl /\
    pick pl None (Some (-1)%Z) = Some (mk_device 1 32).
Proof.
  destruct (proj1 (init_succeeds_iff host_both None None (Some (-1)%Z)
                     Cuda (mk_device 1 32) 32) eq_refl) as (Hr & Hp & _).
  split; [ reflexivity | ]. split; [ exact Hr | exact Hp ].
Defined.

(** The only OpenCL platform has one device: number 5 does not exist. *)
Lemma init_failure_kinds_witness :
  init host_both (Some "ocl") None (Some 5%Z) = InitRaise (UnboundLocalError "device") /\
  pick [[mk_device 2 64]] None (Some 5%Z) = None.
Proof.
  split; [ reflexivity | ].
  exact (proj2 (init_failure_kinds host_both (Some "ocl") None (Some 5%Z)
                  (UnboundLocalError "device") eq_refl)).
Defined.

Lemma init_detection_witness :
  diag_cuda host_both = 1%Z /\
  init host_both None None None = init host_both (Some "cuda") None None.
Proof.
  split; [ reflexivity | ].
  exact (proj1 (init_detection host_both None None None) eq_refl).
Defined.

End ConstructorInstances.

Section BindingInstances.
Import Lifecycle.

Lemma release_unbinds_witness :
  released_names ⊆ attrs planned /\ exists i', release planned = Done i'.
Proof.
  assert (H : released_names ⊆ attrs planned)
    by (refine (bool_decide_unpack _ _); vm_compute; exact I).
  split; [ exact H | exact (proj1 (proj1 (release_unbinds planned)) H) ].
Defined.

Lemma release_not_repeatable_witness :
  release planned = Done released /\
  release released = Fails (NoAttribute "volume") released.
Proof.
  assert (H : release planned = Done released) by (vm_compute; reflexivity).
  split; [ exact H | exact (proj1 (release_not_repeatable planned) released H) ].
Defined.

Lemma offload_twice_witness :
  offload false before_offload = Done planned /\
  exists i'', offload false planned = Fails (NoKey "pELL") i''.
Proof.
  assert (H : offload false before_offload = Done planned) by (vm_compute; reflexivity).
  split; [ exact H | ].
  destruct (offload_twice false false before_offload planned H) as (i'' & Hf & _).
  exists i''. exact Hf.
Defined.

Lemma plan_binds_witness :
  required_keys ⊆ required_keys /\ below constructed initialised /\
  exists i',
    plan required_keys false true true false initialised = Done i' /\
    "pELL" ∉ keys_of i' "st".
Proof.
  assert (HK : required_keys ⊆ required_keys) by reflexivity.
  assert (Hb : below constructed initialised).
  { split.
    - refine (bool_decide_unpack _ _); vm_compute; exact I.
    - intros d. apply empty_subseteq. }
  split; [ exact HK | ]. split; [ exact Hb | ].
  destruct (plan_binds required_keys false true true false initialised HK Hb)
    as (i' & Hrun & _ & _ & _ & Hst).
  exists i'. split; [ exact Hrun | exact Hst ].
Defined.

Lemma replan_after_release_witness :
  required_keys ⊆ required_keys /\ release planned = Done released /\
  exists i'',
    plan required_keys false true true false released = Fails (NoAttribute "thr") i''.
Proof.
  assert (HK : required_keys ⊆ required_keys) by reflexivity.
  assert (H : release planned = Done released) by (vm_compute; reflexivity).
  split; [ exact HK | ]. split; [ exact H | ].
  destruct (replan_after_release required_keys false true true false planned released HK H)
    as (i'' & Hf & _).
  exists i''. exact Hf.
Defined.

End BindingInstances.
